(** * TCRM statistics: origin density (KDEOrigin.py) and radius to maximum
      winds (trackSize.py)

    A shallow embedding of the two Python modules and the properties their
    specification states about them.

    Numbers.  The Python code computes with binary64 floats.  Three
    models of them are used, each where it decides nothing it should not.
    [TrackSize] and [KDEOrigin] idealise them as exact numbers: the reals
    in [TrackSize], whose formulas need [exp] and [ln], and the rationals
    in [KDEOrigin], which only adds, multiplies, divides, compares and
    rounds, so that the model of that class runs; rounding error, NaN and
    infinities are outside these two, and what is proved in them is about
    control flow, exceptions, state and shape, or is an identity the
    floats follow up to rounding.  [Binary64] is the arithmetic itself, on
    the primitive floats, and runs the grid's coordinate sequences where
    a rounding decides their length.  [Rounded] is the arithmetic up to
    its rounding: every operation gives its exact result times a factor
    within one unit of relative error of 1, whichever it is, so that what
    is proved of the contour levels there holds for every way the floats
    can round.

    Effects.  Python exceptions are values of [exn]; a method of the class
    is a function from the object's state to an outcome and the state it
    leaves behind, so an attribute assigned before a [raise] stays
    assigned.  The module-level logger of trackSize.py is a list of
    records.  Calls to the logger and to the progress bar in KDEOrigin.py
    change neither the object nor the control flow and are left out. *)

From Stdlib Require Import String Ascii Bool Arith ZArith List Sorted.
From Stdlib Require Import QArith Qround Qpower Qfield.
From Stdlib Require Import Reals Psatz.
From Stdlib Require Import DecimalString.
From Stdlib Require Floats Uint63.
Import ListNotations.

Set Implicit Arguments.

(** ** Python exceptions *)

(** The exceptions the two modules can raise, each with what its message
    identifies.  The specification's error kinds are names for them:
    InvalidBandwidth is the [ValueError] of [_generatePDF],
    UnsupportedKernel and StateError are [AttributeError]s,
    ShapeMismatch is [AssertionError]. *)
Inductive exn : Type :=
| AssertionError
| AttributeError (name : string)
| IndexError
| ValueError (msg : string)
| ZeroDivisionError
| OverflowError.

(** ** A state and exception monad *)

Module Py.

Section Monad.

Variable St : Type.

Definition M (A : Type) : Type := St -> (exn + A) * St.

Definition ret {A} (a : A) : M A := fun s => (inr a, s).

Definition raise {A} (e : exn) : M A := fun s => (inl e, s).

Definition bind {A B} (m : M A) (k : A -> M B) : M B :=
  fun s => match m s with
           | (inl e, s') => (inl e, s')
           | (inr a, s') => k a s'
           end.

Definition get : M St := fun s => (inr s, s).

Definition modify (f : St -> St) : M unit := fun s => (inr tt, f s).

(** A pure computation that may raise. *)
Definition lift {A} (r : exn + A) : M A := fun s => (r, s).

(** [assert c]. *)
Definition assert (c : bool) : M unit :=
  if c then ret tt else raise AssertionError.

End Monad.

Arguments ret {St A} a.
Arguments raise {St A} e.
Arguments bind {St A B} m k.
Arguments get {St}.
Arguments modify {St} f.
Arguments lift {St A} r.
Arguments assert {St} c.

Declare Scope py_scope.
Delimit Scope py_scope with py.

Notation "x <- m ;; k" := (bind m (fun x => k))
  (at level 61, m at next level, right associativity) : py_scope.
Notation "m ;; k" := (bind m (fun _ => k))
  (at level 61, right associativity) : py_scope.

End Py.

(** ** trackSize.py *)

Module TrackSize.

Import Py.
Local Open Scope R_scope.
Local Open Scope py_scope.

(** A numeric argument: a Python number or a one-dimensional
    [numpy.ndarray]. *)
Inductive value : Type :=
| Scalar (v : R)
| Array (vs : list R).

(** numpy's elementwise binary operations on such arguments, with its
    broadcasting rule in one dimension: the lengths agree or one of them
    is 1, otherwise the operands cannot be broadcast together. *)
Definition broadcast (f : R -> R -> R) (u v : value) : exn + value :=
  match u, v with
  | Scalar a, Scalar b => inr (Scalar (f a b))
  | Scalar a, Array bs => inr (Array (map (f a) bs))
  | Array xs, Scalar b => inr (Array (map (fun a => f a b) xs))
  | Array xs, Array bs =>
      if (length xs =? length bs)%nat
      then inr (Array (map (fun p => f (fst p) (snd p)) (combine xs bs)))
      else match xs, bs with
           | [a], _ => inr (Array (map (f a) bs))
           | _, [b] => inr (Array (map (fun a => f a b) xs))
           | _, _ => inl (ValueError "operands could not be broadcast together")
           end
  end.

Definition np_exp (v : value) : value :=
  match v with
  | Scalar a => Scalar (exp a)
  | Array xs => Array (map exp xs)
  end.

(** The module's logger [LOG]: the records written so far, oldest first. *)
Inductive level : Type := WARNING.

Definition LOG : Type := list (level * string).

Definition LOG_warn (msg : string) : M LOG unit :=
  modify (fun l => l ++ [(WARNING, msg)]).

(** The default of [coeffs], which is also the vector substituted for a
    short one. *)
Definition default_coeffs : list R :=
  [ 4.4726049824584306;
    -0.04057322103602546;
    0.00031318220949448573;
    0.00014553984831170656 ].

(** [coeffs[i]]. *)
Definition getitem {St} (l : list R) (i : nat) : M St R :=
  match nth_error l i with
  | Some v => ret v
  | None => raise IndexError
  end.

(** [rmax(dp, lat, eps, coeffs)].  [eps] is the scalar variate of the
    docstring. *)
Definition rmax (dp lat : value) (eps : R) (coeffs : list R) : M LOG value :=
  coeffs <- (if (length coeffs <? 4)%nat
             then LOG_warn "Insufficient coefficients for rmw calculation!" ;;
                  LOG_warn "Using default values" ;;
                  ret default_coeffs
             else ret coeffs) ;;
  match dp, lat with
  | Array d, Array l => assert (length d =? length l)%nat
  | _, _ => ret tt
  end ;;
  c0 <- getitem coeffs 0 ;;
  c1 <- getitem coeffs 1 ;;
  t1 <- lift (broadcast Rmult (Scalar c1) dp) ;;
  s1 <- lift (broadcast Rplus (Scalar c0) t1) ;;
  c2 <- getitem coeffs 2 ;;
  t2 <- lift (broadcast Rmult (Scalar c2) dp) ;;
  t2 <- lift (broadcast Rmult t2 dp) ;;
  s2 <- lift (broadcast Rplus s1 t2) ;;
  c3 <- getitem coeffs 3 ;;
  t3 <- lift (broadcast Rmult (Scalar c3) lat) ;;
  t3 <- lift (broadcast Rmult t3 lat) ;;
  s3 <- lift (broadcast Rplus s2 t3) ;;
  s4 <- lift (broadcast Rplus s3 (Scalar eps)) ;;
  ret (np_exp s4).

(** The routines of statsmodels and scipy that [fitRmax] calls, which are
    outside the sources: [add_constant] is [sm.add_constant], which gives
    the matrix it makes of the columns (with a column of ones, or as it
    was) or raises; [OLS_fit X y] is [sm.OLS(y, X).fit()], giving [params]
    and [resid] or the exception it raises; and [norm_fit] is
    [stats.norm.fit] with its two keyword arguments, giving the fitted
    location and scale or the exception it raises. *)
Class Solvers : Type := {
  add_constant : list (list R) -> exn + list (list R);
  OLS_fit : list (list R) -> list R -> exn + (list R * list R);
  norm_fit : list R -> R -> R -> exn + (R * R)
}.

Definition Rsum (l : list R) : R := fold_right Rplus 0 l.

(** [np.mean] and [np.std]. *)
Definition np_mean (l : list R) : R := Rsum l / INR (length l).

Definition np_std (l : list R) : R :=
  sqrt (np_mean (map (fun v => (v - np_mean l) * (v - np_mean l)) l)).

(** [np.column_stack((dp, dp*dp, lat*lat))] on arrays of one length: one
    row [dp, dp^2, lat^2] per observation. *)
Definition column_stack (dp lat : list R) : list (list R) :=
  map (fun p => [fst p; fst p * fst p; snd p * snd p]) (combine dp lat).

(** [fitRmax(rmw, dp, lat)] on three one-dimensional arrays. *)
Definition fitRmax `{Solvers} (rmw dp lat : list R) : exn + list R :=
  if negb (length dp =? length lat)%nat then inl AssertionError
  else if negb (length rmw =? length dp)%nat then inl AssertionError
  else
    match add_constant (column_stack dp lat) with
    | inl e => inl e
    | inr X =>
        let y := map ln rmw in
        match OLS_fit X y with
        | inl e => inl e
        | inr (params, r) =>
            match norm_fit r (np_mean r) (np_std r) with
            | inl e => inl e
            | inr rf => inr (params ++ [snd rf])
            end
        end
    end.

(** *** What the specification says of [rmax] *)

(** The functional form [ln(Rmw) = a + b*dp + c*dp^2 + d*lat^2 + eps]. *)
Definition ln_rmw (a b c d eps dp lat : R) : R :=
  a + b * dp + c * dp ^ 2 + d * lat ^ 2 + eps.

(** A function of pressure deficit and latitude applied elementwise. *)
Definition elementwise (f : R -> R -> R) (dp lat : value) : value :=
  match dp, lat with
  | Scalar u, Scalar v => Scalar (f u v)
  | Scalar u, Array vs => Array (map (fun v => f u v) vs)
  | Array us, Scalar v => Array (map (fun u => f u v) us)
  | Array us, Array vs => Array (map (fun p => f (fst p) (snd p)) (combine us vs))
  end.

(** Two arrays have to be of one length; a scalar goes with anything. *)
Definition shapes_agree (dp lat : value) : Prop :=
  match dp, lat with
  | Array ds, Array ls => length ds = length ls
  | _, _ => True
  end.

(** The two records [rmax] writes when it is given too few coefficients. *)
Definition short_warnings : LOG :=
  [ (WARNING, "Insufficient coefficients for rmw calculation!"%string);
    (WARNING, "Using default values"%string) ].

(** *** Routines to run [fitRmax] with *)

(** [sm.add_constant] with its default [has_constant='skip'], as current
    statsmodels has it: where a column is constant and not zero the matrix
    is returned as it is, otherwise a column of ones is put in front; the
    range of a column of no rows cannot be taken. *)
Definition Reqb (a b : R) : bool := if Req_dec_T a b then true else false.

Definition nonzero_constant (c : list R) : bool :=
  match c with
  | [] => false
  | v :: _ => forallb (Reqb v) c && negb (existsb (Reqb 0) c)
  end.

Definition sm_add_constant (X : list (list R)) : exn + list (list R) :=
  match X with
  | [] => inl (ValueError "zero-size array to reduction operation maximum which has no identity")
  | r0 :: _ =>
      if existsb (fun j => nonzero_constant (map (fun r => nth j r 0) X))
                 (seq 0 (length r0))
      then inr X
      else inr (map (cons 1) X)
  end.

(** The coefficient vector zero, one entry for each column, with the
    residuals [y - X 0 = y] it leaves: the least-squares solution of least
    norm, which is what the pseudo-inverse of statsmodels computes,
    whenever [y] is zero.  The normal distribution fitted to the residuals
    has their mean and standard deviation. *)
#[local] Instance zero_fit : Solvers := {
  add_constant := sm_add_constant;
  OLS_fit := fun X y => inr (repeat 0 (length (hd [] X)), y);
  norm_fit := fun r loc scale => inr (np_mean r, np_std r)
}.

(** *** The outcome of [rmax] in closed form *)

(** A function applied to every entry, and the length of an array. *)
Definition vmap (f : R -> R) (v : value) : value :=
  match v with
  | Scalar a => Scalar (f a)
  | Array xs => Array (map f xs)
  end.


(** [shapes_agree] as a test. *)
Definition shapes_agreeb (dp lat : value) : bool :=
  match dp, lat with
  | Array ds, Array ls => (length ds =? length ls)%nat
  | _, _ => true
  end.

(** The coefficients [rmax] computes with, and what it logs on the way. *)
Definition effective_coeffs (coeffs : list R) : list R :=
  if (length coeffs <? 4)%nat then default_coeffs else coeffs.

Definition coeff (i : nat) (coeffs : list R) : R :=
  nth i (effective_coeffs coeffs) 0.

Definition warnings_for (coeffs : list R) : LOG :=
  if (length coeffs <? 4)%nat then short_warnings else [].

Definition rmax_outcome (dp lat : value) (eps : R) (coeffs : list R)
  : exn + value :=
  if shapes_agreeb dp lat
  then inr (elementwise
              (fun u v => exp (ln_rmw (coeff 0 coeffs) (coeff 1 coeffs)
                                      (coeff 2 coeffs) (coeff 3 coeffs) eps u v))
              dp lat)
  else inl AssertionError.

End TrackSize.

(** ** KDEOrigin.py *)

Module KDEOrigin.

Import Py.
Local Open Scope Q_scope.
Local Open Scope py_scope.

(** *** numpy on one-dimensional arrays *)

Definition Qlt_bool (a b : Q) : bool := negb (Qle_bool b a).

(** [numpy.arange(start, stop, step)] in exact arithmetic:
    [ceil((stop - start) / step)] values [start + i * step]; the division
    by a zero step raises.  [Binary64.arange] is the same call on the
    floats, whose rounding can add a value. *)
Definition arange_len (start stop step : Q) : nat :=
  Z.to_nat (Qceiling ((stop - start) / step)).

Definition arange_nth (start step : Q) (i : nat) : Q :=
  start + inject_Z (Z.of_nat i) * step.

Definition arange (start stop step : Q) : exn + list Q :=
  if Qeq_bool step 0 then inl ZeroDivisionError
  else inr (map (arange_nth start step) (seq 0 (arange_len start stop step))).

(** [a.sum()]. *)
Definition Qsum (l : list Q) : Q := fold_right Qplus 0 l.

(** [a.max()], which numpy refuses on an array of size zero. *)
Definition np_max (l : list Q) : exn + Q :=
  match l with
  | [] => inl (ValueError "zero-size array to reduction operation maximum which has no identity")
  | v :: l' => inr (fold_left (fun m w => if Qlt_bool m w then w else m) l' v)
  end.

(** A two-dimensional array, as the list of its rows. *)
Definition grid : Type := list (list Q).

Fixpoint chunks (rows cols : nat) (l : list Q) : grid :=
  match rows with
  | O => []
  | S r => firstn cols l :: chunks r cols (skipn cols l)
  end.

(** [a.shape = (a.shape[0] / cols, cols)] on a one-dimensional array, with
    Python 2's integer division. *)
Definition reshape (l : list Q) (cols : nat) : exn + grid :=
  if (cols =? 0)%nat then inl ZeroDivisionError
  else
    let rows := (length l / cols)%nat in
    if (rows * cols =? length l)%nat then inr (chunks rows cols l)
    else inl (ValueError "total size of new array must be unchanged").

(** [a.transpose()] of an array with [cols] columns. *)
Fixpoint transpose (cols : nat) (a : grid) : grid :=
  match a with
  | [] => repeat [] cols
  | r :: a' => map (fun p => fst p :: snd p) (combine r (transpose cols a'))
  end.

(** [int(numpy.floor(numpy.log10(q)))] for a positive [q]: the tens are
    counted off, at most [log10_fuel q] of them. *)
Fixpoint log10_ge1 (fuel : nat) (q : Q) : Z :=
  match fuel with
  | O => 0
  | S f => if Qle_bool 10 q then (1 + log10_ge1 f (q / 10))%Z else 0%Z
  end.

Fixpoint log10_lt1 (fuel : nat) (q : Q) : Z :=
  match fuel with
  | O => 0
  | S f => if Qle_bool 1 q then 0%Z else (log10_lt1 f (q * 10) - 1)%Z
  end.

Definition log10_fuel (q : Q) : nat :=
  S (Z.to_nat (Z.log2 (Qnum q) + Z.log2 (Zpos (Qden q)))).

Definition floor_log10 (q : Q) : Z :=
  if Qle_bool 1 q then log10_ge1 (log10_fuel q) q
  else log10_lt1 (log10_fuel q) q.

(** ['%d' % q]: the value truncated towards zero, in decimal. *)
Definition format_d (q : Q) : string :=
  NilZero.string_of_int (Z.to_int (Z.quot (Qnum q) (Zpos (Qden q)))).

(** [os.path.join]. *)
Definition path_join (a b : string) : string := (a ++ "/" ++ b)%string.

(** *** The collaborators in Utilities *)

(** A kernel routine of KPDF: observations, grid points and bandwidth to
    one density value per grid point, or the exception it raises. *)
Definition kernel : Type := list (list Q) -> list (list Q) -> Q -> exn + list Q.

(** What the class uses of Utilities.KPDF, Utilities.stats, Utilities.config
    and Utilities.files: [KPDF_getattr name] is [getattr(KPDF, name)] for a
    kernel routine. *)
Class Utilities : Type := {
  KPDF_getattr : string -> option kernel;
  MPDFOptimumBandwidth : list (list Q) -> Q;
  cdf2d : list Q -> list Q -> grid -> grid;
  cnfGetIniValue : string -> string -> string -> string;
  flLoadFile : string -> string -> string -> list (list Q)
}.

(** Modelled from the spec: [KPDF.MPDF2DGrid2Array(x, y, 1)], a C routine
    outside the sources.  The grid evaluation points are the cartesian
    product of the coordinate sequences, one point per cell, in the
    row-major order of a (y-count, x-count) array. *)
Definition MPDF2DGrid2Array (xs ys : list Q) : list (list Q) :=
  flat_map (fun yv => map (fun xv => [xv; yv]) xs) ys.

(** *** The object *)

Record gridLimit : Type := {
  xMin : Q;
  xMax : Q;
  yMin : Q;
  yMax : Q
}.

(** The attributes of an instance; [None] is an attribute not assigned
    yet. *)
Record KDEOrigin : Type := {
  configFile : string;
  x : list Q;
  y : list Q;
  kdeType : string;
  kdeStep : Q;
  outputPath : option string;
  processPath : option string;
  lonLat : list (list Q);
  bw : Q;
  pdf : option grid;
  cz : option grid
}.

Definition set_bw (b : Q) (self : KDEOrigin) : KDEOrigin :=
  {| configFile := configFile self; x := x self; y := y self;
     kdeType := kdeType self; kdeStep := kdeStep self;
     outputPath := outputPath self; processPath := processPath self;
     lonLat := lonLat self; bw := b; pdf := pdf self; cz := cz self |}.

Definition set_pdf (p : grid) (self : KDEOrigin) : KDEOrigin :=
  {| configFile := configFile self; x := x self; y := y self;
     kdeType := kdeType self; kdeStep := kdeStep self;
     outputPath := outputPath self; processPath := processPath self;
     lonLat := lonLat self; bw := bw self; pdf := Some p; cz := cz self |}.

Definition set_cz (c : grid) (self : KDEOrigin) : KDEOrigin :=
  {| configFile := configFile self; x := x self; y := y self;
     kdeType := kdeType self; kdeStep := kdeStep self;
     outputPath := outputPath self; processPath := processPath self;
     lonLat := lonLat self; bw := bw self; pdf := pdf self; cz := Some c |}.

(** [self.name] for an attribute that may not exist yet. *)
Definition getattr {A} (field : KDEOrigin -> option A) (name : string)
  : M KDEOrigin A :=
  self <- get ;;
  match field self with
  | Some v => ret v
  | None => raise (AttributeError name)
  end.

(** The truth value of a number. *)
Definition truthy (b : Q) : bool := negb (Qeq_bool b 0).

Section Methods.

Context {U : Utilities}.

(** [KDEOrigin(configFile, kdeType, gridLimit, kdeStep, lonLat)]. *)
Definition __init__ (configFile kdeType : string) (gl : gridLimit)
  (kdeStep : Q) (lonLat : option (list (list Q))) : exn + KDEOrigin :=
  match arange (xMin gl) (xMax gl) kdeStep with
  | inl e => inl e
  | inr xs =>
  match arange (yMax gl) (yMin gl) (- kdeStep) with
  | inl e => inl e
  | inr ys =>
      let outputPath := cnfGetIniValue configFile "Output" "Path" in
      let processPath := path_join outputPath "process" in
      let ll :=
        match lonLat with
        | None => flLoadFile (path_join processPath "init_lon_lat") "%" ","
        | Some ll => ll
        end in
      let lonLat' := map (firstn 2) ll in
      inr {| configFile := configFile; x := xs; y := ys;
             kdeType := kdeType; kdeStep := kdeStep;
             outputPath := match lonLat with None => Some outputPath | Some _ => None end;
             processPath := match lonLat with None => Some processPath | Some _ => None end;
             lonLat := lonLat';
             bw := MPDFOptimumBandwidth lonLat';
             pdf := None; cz := None |}
  end
  end.

(** ['bw = %d. Bandwidth cannot be negative or zero' % bw]. *)
Definition bw_message (b : Q) : string :=
  ("bw = " ++ format_d b ++ ". Bandwidth cannot be negative or zero")%string.

(** [self._generatePDF(grid, bw)]. *)
Definition _generatePDF (grid2d : list (list Q)) (bw : Q) : M KDEOrigin (list Q) :=
  if Qle_bool bw 0
  then raise (ValueError (bw_message bw))
  else
    self <- get ;;
    match KPDF_getattr ("MPDF" ++ kdeType self) with
    | None => raise (AttributeError ("MPDF" ++ kdeType self))
    | Some kdeMethod => lift (kdeMethod (lonLat self) grid2d bw)
    end.

(** The contour levels chosen for a maximum density [pdfMax] in exact
    arithmetic: exponent, significand, step and levels.  [numpy.log10] of
    zero is minus infinity and of a negative number NaN, neither of which
    [int] converts.  [Rounded.contour_levels] is the same selection with
    the rounding of the floats. *)
Definition min_lvls : Q := 6.

Definition lvls_options : list Q := [1; 0.5; 0.25; 0.2; 0.1].

Definition contour_levels (pdfMax : Q) : exn + (Z * Q * Q * list Q) :=
  if Qeq_bool pdfMax 0 then inl OverflowError
  else if Qlt_bool pdfMax 0
  then inl (ValueError "cannot convert float NaN to integer")
  else
    let exponent := floor_log10 pdfMax in
    let significand := pdfMax * 10 ^ (- exponent) in
    match find (fun o => Qlt_bool min_lvls (significand / o)) lvls_options with
    | None => inl IndexError
    | Some lvl_step =>
        match arange 0 pdfMax (lvl_step * 10 ^ exponent) with
        | inl e => inl e
        | inr lvls => inr (exponent, significand, lvl_step, lvls)
        end
    end.

(** [self.generateKDE(bw, save)].  The writers and plotters called when
    [save] is set are outside the model; what is kept of that branch is
    what it reads and computes on the way.  numpy divides by a total of
    zero without raising, the quotients being NaN; [Qdiv] gives 0 there,
    and nothing below is concluded from such quotients. *)
Definition generateKDE (bw_arg : option Q) (save : bool)
  : M KDEOrigin (option (list Q * list Q * grid)) :=
  self <- get ;;
  let grid2d := MPDF2DGrid2Array (x self) (y self) in
  match bw_arg with
  | Some b => if truthy b then modify (set_bw b) else ret tt
  | None => ret tt
  end ;;
  self <- get ;;
  pdf1 <- _generatePDF grid2d (bw self) ;;
  let pdf1 := map (fun v => v / Qsum pdf1) pdf1 in
  pdf2 <- lift (reshape pdf1 (length (x self))) ;;
  modify (set_pdf (transpose (length (x self)) pdf2)) ;;
  if save then
    _ <- getattr processPath "processPath" ;;
    pdfMax <- lift (np_max (concat pdf2)) ;;
    _ <- lift (contour_levels pdfMax) ;;
    _ <- getattr outputPath "outputPath" ;;
    ret None
  else
    self <- get ;;
    p <- getattr pdf "pdf" ;;
    ret (Some (x self, y self, p)).

(** [self.generateCdf(save)]. *)
Definition generateCdf (save : bool) : M KDEOrigin (option grid) :=
  self <- get ;;
  p <- getattr pdf "pdf" ;;
  modify (set_cz (cdf2d (x self) (y self) p)) ;;
  if save then
    _ <- getattr processPath "processPath" ;;
    ret None
  else
    c <- getattr cz "cz" ;;
    ret (Some c).

(** *** Sequences of calls *)

(** The object [generateKDE] goes on with once it has looked at its
    bandwidth argument, and the bandwidth it then uses. *)
Definition override (bw_arg : option Q) (self : KDEOrigin) : KDEOrigin :=
  match bw_arg with
  | Some b => if truthy b then set_bw b self else self
  | None => self
  end.

Definition effective_bw (bw_arg : option Q) (self : KDEOrigin) : Q :=
  bw (override bw_arg self).

(** A call of a method from outside. *)
Inductive call : Type :=
| GenerateKDE (bw_arg : option Q) (save : bool)
| GenerateCdf (save : bool).

(** A call that passes no bandwidth, or one that counts as none. *)
Definition no_override (c : call) : Prop :=
  match c with
  | GenerateKDE (Some b) _ => truthy b = false
  | _ => True
  end.

(** The object after a call, whether it returned or raised. *)
Definition exec (c : call) (self : KDEOrigin) : KDEOrigin :=
  match c with
  | GenerateKDE bw_arg save => snd (generateKDE bw_arg save self)
  | GenerateCdf save => snd (generateCdf save self)
  end.

Definition exec_all (cs : list call) (self : KDEOrigin) : KDEOrigin :=
  fold_left (fun s c => exec c s) cs self.

(** A call that stores no PDF: a call of [generateCdf], or a call of
    [generateKDE] that raises while the PDF is computed, which is when the
    same call without [save] raises, the branch for [save] coming after
    the assignment of [self.pdf]. *)
Definition fails_before_store (c : call) (self : KDEOrigin) : Prop :=
  match c with
  | GenerateKDE bw_arg _ => exists e, fst (generateKDE bw_arg false self) = inl e
  | GenerateCdf _ => True
  end.

(** A sequence of such calls, each on the object the calls before it
    left. *)
Fixpoint stores_no_pdf (cs : list call) (self : KDEOrigin) : Prop :=
  match cs with
  | [] => True
  | c :: cs' => fails_before_store c self /\ stores_no_pdf cs' (exec c self)
  end.

End Methods.

(** A computation that leaves an attribute as it found it, whatever its
    outcome. *)
Definition preserves {X A} (f : KDEOrigin -> X) (m : M KDEOrigin A) : Prop :=
  forall s, f (snd (m s)) = f s.

Definition nonneg (v : Q) : Prop := 0 <= v.

(** The floating tolerance the specification tests sums with, [1e-9]. *)
Definition tolerance : Q := 1 # 1000000000.

(** *** Collaborators to run the class with *)

(** The C kernels of Utilities.KPDF are outside the sources.  To run the
    methods on data, this environment offers one kernel with rational
    values under the name MPDFInverseQuadratic, the sum over the
    observations of [1 / (1 + |p - o|^2 / bw^2)]; it takes 1 for the optimum
    bandwidth, cumulative sums along both axes for [cdf2d], the directory
    "output" for every configured path and no rows for a file. *)
Definition sqdist (p o : list Q) : Q :=
  (nth 0 p 0 - nth 0 o 0) ^ 2 + (nth 1 p 0 - nth 1 o 0) ^ 2.

Definition MPDFInverseQuadratic : kernel :=
  fun obs grid2d bw =>
    inr (map (fun p => Qsum (map (fun o => 1 / (1 + sqdist p o / (bw * bw))) obs))
             grid2d).

Fixpoint cumsum (acc : Q) (l : list Q) : list Q :=
  match l with
  | [] => []
  | v :: l' => (acc + v) :: cumsum (acc + v) l'
  end.

Fixpoint cumsum_rows (acc : option (list Q)) (a : grid) : grid :=
  match a with
  | [] => []
  | r :: a' =>
      let r' := match acc with
                | None => r
                | Some u => map (fun p => fst p + snd p) (combine u r)
                end in
      r' :: cumsum_rows (Some r') a'
  end.

#[local] Instance demo : Utilities := {
  KPDF_getattr := fun name =>
    if String.eqb name "MPDFInverseQuadratic" then Some MPDFInverseQuadratic
    else None;
  MPDFOptimumBandwidth := fun _ => 1;
  cdf2d := fun _ _ p => cumsum_rows None (map (cumsum 0) p);
  cnfGetIniValue := fun _ _ _ => "output"%string;
  flLoadFile := fun _ _ _ => []
}.

(** A two by two grid over the unit square and one observed origin. *)
Definition unit_square : gridLimit :=
  {| xMin := 0; xMax := 1; yMin := 0; yMax := 1 |}.

Definition one_origin : list (list Q) := [[0.25; 0.75]].

(** The object built over a domain with step 0.5 from that origin. *)
Definition new_model (gl : gridLimit) : exn + KDEOrigin :=
  @__init__ demo "tcrm.ini" "InverseQuadratic" gl 0.5 (Some one_origin).

(** *** The script *)

Section Script.

Context {U : Utilities}.

(** The script, from the point where it has read the kernel name and the
    grid limits from the configuration: the object is built with the step
    0.1 and no observations of its own, and the PDF and the CDF are
    generated and saved.  The outcome is the exception that ends the run
    or the object at its end. *)
Definition main (configFile kdeType : string) (gl : gridLimit) : exn + KDEOrigin :=
  match __init__ configFile kdeType gl 0.1 None with
  | inl e => inl e
  | inr kde =>
      match generateKDE None true kde with
      | (inl e, _) => inl e
      | (inr _, kde1) =>
          match generateCdf true kde1 with
          | (inl e, _) => inl e
          | (inr _, kde2) => inr kde2
          end
      end
  end.

End Script.

(** *** The branch for saving *)

(** What the branch of [generateKDE] for [save] does with the reshaped
    grid, in the object that already holds the PDF: it reads the two paths,
    takes the maximum and chooses the contour levels, and returns nothing. *)
Definition save_outcome (pdf2 : grid) (self : KDEOrigin)
  : exn + option (list Q * list Q * grid) :=
  match processPath self with
  | None => inl (AttributeError "processPath")
  | Some _ =>
      match np_max (concat pdf2) with
      | inl e => inl e
      | inr pdfMax =>
          match contour_levels pdfMax with
          | inl e => inl e
          | inr _ =>
              match outputPath self with
              | None => inl (AttributeError "outputPath")
              | Some _ => inr None
              end
          end
      end
  end.

(** *** Further inputs *)

(** The environment [demo] with a file of origins that holds one row. *)
#[local] Instance demo_file : Utilities := {
  KPDF_getattr := @KPDF_getattr demo;
  MPDFOptimumBandwidth := @MPDFOptimumBandwidth demo;
  cdf2d := @cdf2d demo;
  cnfGetIniValue := @cnfGetIniValue demo;
  flLoadFile := fun _ _ _ => one_origin
}.

(** A domain of two cells by two at the script's step of 0.1. *)
Definition small_square : gridLimit :=
  {| xMin := 0; xMax := 0.2; yMin := 0; yMax := 0.2 |}.

(** A domain of no width: its x-sequence is empty. *)
Definition no_width : gridLimit :=
  {| xMin := 1; xMax := 1; yMin := 0; yMax := 1 |}.

End KDEOrigin.

(** ** Binary64 *)

(** numpy's [arange] on binary64 floats, and lines 147 and 148 of
    [KDEOrigin.__init__] with it. *)
Module Binary64.

Import PrimFloat SpecFloat.
Local Open Scope float_scope.
#[local] Set Warnings "-inexact-float".

(** The number a float stands for, where it stands for one. *)
Definition to_Q (f : float) : option Q :=
  match FloatOps.Prim2SF f with
  | S754_zero _ => Some 0%Q
  | S754_finite s m e =>
      let v := (inject_Z (Z.pos m) * 2 ^ e)%Q in
      Some (if s then (- v)%Q else v)
  | _ => None
  end.

Definition value (f : float) : Q :=
  match to_Q f with
  | Some q => Qred q
  | None => 0%Q
  end.

(** [ceil] of a float, as an integer. *)
Definition ceil (f : float) : option Z := option_map Qceiling (to_Q f).

(** The float of an index. *)
Definition of_nat (i : nat) : float := of_uint63 (Uint63.of_Z (Z.of_nat i)).

Definition max_intp : Z := 2 ^ 63 - 1.

(** [numpy.arange(start, stop, step)] on Python floats.  The length is the
    ceiling of the float [(stop - start) / step], a division Python
    refuses by zero; the first value is [start], the second
    [start + step], and numpy fills in the others as
    [start + i * delta] with [delta] the difference of the first two. *)
Definition arange (start stop step : float) : exn + list float :=
  if step =? 0 then inl ZeroDivisionError
  else
    match ceil ((stop - start) / step) with
    | None => inl (ValueError "arange: cannot compute length")
    | Some n =>
        if (max_intp <? n)%Z then inl (ValueError "Maximum allowed size exceeded")
        else
          let next := start + step in
          let delta := next - start in
          inr (map (fun i => match i with
                             | O => start
                             | 1%nat => next
                             | _ => start + of_nat i * delta
                             end)
                   (seq 0 (Z.to_nat n)))
    end.

Record gridLimit : Type := {
  xMin : float;
  xMax : float;
  yMin : float;
  yMax : float
}.

(** [self.x] and [self.y] as [__init__] assigns them. *)
Definition axes (gl : gridLimit) (kdeStep : float)
  : exn + (list float * list float) :=
  match arange (xMin gl) (xMax gl) kdeStep with
  | inl e => inl e
  | inr xs =>
      match arange (yMax gl) (yMin gl) (- kdeStep) with
      | inl e => inl e
      | inr ys => inr (xs, ys)
      end
  end.

(** A domain with bounds in tenths of a degree. *)
Definition tenth_degree_box : gridLimit :=
  {| xMin := 1; xMax := 1.3; yMin := -1.3; yMax := -1 |}.

(** [lvls_options] and [min_lvls] of [generateKDE], as the floats they
    are. *)
Definition lvls_options : list float := [1; 0.5; 0.25; 0.2; 0.1].

Definition min_lvls : float := 6.

End Binary64.

(** ** Arithmetic up to rounding *)

(** The contour levels of [generateKDE] (lines 218 to 225) in the
    arithmetic of floats, of which only this is used: an operation gives
    its exact result times a factor close to 1. *)
Module Rounded.

Import KDEOrigin.
Local Open Scope Q_scope.

(** The operations of the floats on the numbers they stand for:
    [int_pow10 k] is [10**k] on Python integers, converted to a float
    where it meets one, [float_pow10 k] is [10.0**k], and
    [int_floor_log10 q] is [int(numpy.floor(numpy.log10(q)))]. *)
Class Arithmetic : Type := {
  fl_add : Q -> Q -> Q;
  fl_sub : Q -> Q -> Q;
  fl_mul : Q -> Q -> Q;
  fl_div : Q -> Q -> Q;
  int_pow10 : Z -> Q;
  float_pow10 : Z -> Q;
  int_floor_log10 : Q -> Z
}.

(** [b] is [a] up to a relative error of [u]. *)
Definition near (u a b : Q) : Prop :=
  exists r, 1 - u <= r /\ r <= 1 + u /\ b == a * r.

(** An arithmetic that rounds within [u].  Binary64 does so with
    [u = 2^-53] wherever a result neither overflows nor falls among the
    subnormal numbers; the powers and the logarithm are the C library's,
    which keep within a few such units. *)
Record Rounds (u : Q) (A : Arithmetic) : Prop := {
  add_near : forall a b, near u (a + b) (fl_add a b);
  sub_near : forall a b, near u (a - b) (fl_sub a b);
  mul_near : forall a b, near u (a * b) (fl_mul a b);
  div_near : forall a b, ~ b == 0 -> near u (a / b) (fl_div a b);
  int_pow10_near : forall k, near u (10 ^ k) (int_pow10 k);
  float_pow10_near : forall k, near u (10 ^ k) (float_pow10 k);
  int_floor_log10_near : forall q,
    0 < q ->
    10 ^ int_floor_log10 q <= q * (1 + u)
    /\ q * (1 - u) < 10 ^ (int_floor_log10 q + 1)
}.

(** The constants, with the values their floats have. *)
Definition min_lvls : Q := Eval vm_compute in Binary64.value Binary64.min_lvls.

Definition lvls_options : list Q :=
  Eval vm_compute in map Binary64.value Binary64.lvls_options.

Section Methods.

Context {A : Arithmetic}.

(** [numpy.arange(start, stop, step)] on numpy's floats, which divide by
    zero without raising and leave no length to compute. *)
Definition arange (start stop step : Q) : exn + list Q :=
  if Qeq_bool step 0 then inl (ValueError "arange: cannot compute length")
  else
    let next := fl_add start step in
    let delta := fl_sub next start in
    inr (map (fun i => match i with
                       | O => start
                       | 1%nat => next
                       | _ => fl_add start (fl_mul (inject_Z (Z.of_nat i)) delta)
                       end)
             (seq 0 (Z.to_nat (Qceiling (fl_div (fl_sub stop start) step))))).

(** The contour levels chosen for a maximum density [pdfMax]: exponent,
    significand, step and levels. *)
Definition contour_levels (pdfMax : Q) : exn + (Z * Q * Q * list Q) :=
  if Qeq_bool pdfMax 0 then inl OverflowError
  else if Qlt_bool pdfMax 0
  then inl (ValueError "cannot convert float NaN to integer")
  else
    let exponent := int_floor_log10 pdfMax in
    let significand := fl_mul pdfMax (int_pow10 (- exponent)) in
    match find (fun o => Qlt_bool min_lvls (fl_div significand o)) lvls_options with
    | None => inl IndexError
    | Some lvl_step =>
        match arange 0 pdfMax (fl_mul lvl_step (float_pow10 exponent)) with
        | inl e => inl e
        | inr lvls => inr (exponent, significand, lvl_step, lvls)
        end
    end.

End Methods.

(** An arithmetic that rounds every product up by one unit in the last
    place, [2^-52], and is exact otherwise. *)
Definition ulp : Q := 1 # 4503599627370496.

#[local] Instance products_up : Arithmetic := {
  fl_add := Qplus;
  fl_sub := Qminus;
  fl_mul := fun a b => a * b * (1 + ulp);
  fl_div := Qdiv;
  int_pow10 := fun k => 10 ^ k;
  float_pow10 := fun k => 10 ^ k;
  int_floor_log10 := floor_log10
}.

End Rounded.

(** * Properties of trackSize.py *)

Module TrackSizeProofs.

Import Py TrackSize.
Local Open Scope R_scope.

(** ** Evaluating [rmax] *)

Lemma combine_map_same {A B C} (g : A -> B) (h : A -> C) l :
  combine (map g l) (map h l) = map (fun i => (g i, h i)) l.
Proof. induction l; simpl; congruence. Qed.

Lemma broadcast_maps {A} f (g h : A -> R) l :
  broadcast f (Array (map g l)) (Array (map h l))
  = inr (Array (map (fun i => f (g i) (h i)) l)).
Proof.
  unfold broadcast. rewrite !length_map, Nat.eqb_refl.
  rewrite combine_map_same, map_map. reflexivity.
Qed.

Lemma broadcast_scalar_l {A} f u (h : A -> R) l :
  broadcast f (Scalar u) (Array (map h l)) = inr (Array (map (fun i => f u (h i)) l)).
Proof. simpl. now rewrite map_map. Qed.

Lemma broadcast_scalar_r {A} f v (g : A -> R) l :
  broadcast f (Array (map g l)) (Scalar v) = inr (Array (map (fun i => f (g i) v) l)).
Proof. simpl. now rewrite map_map. Qed.

Ltac run_rmax :=
  unfold rmax, bind, getitem, lift, assert, ret;
  cbn [length Nat.ltb Nat.leb nth_error];
  rewrite ?length_map, ?Nat.eqb_refl; cbv beta iota;
  repeat (first [ rewrite broadcast_scalar_l
                | rewrite broadcast_scalar_r
                | rewrite broadcast_maps ]; cbv beta iota);
  cbn [broadcast np_exp]; rewrite ?map_map.

Lemma rmax_arrays {A} (g h : A -> R) l a b c d rest eps log :
  rmax (Array (map g l)) (Array (map h l)) eps (a :: b :: c :: d :: rest) log
  = (inr (Array (map (fun i => exp (ln_rmw a b c d eps (g i) (h i))) l)), log).
Proof.
  run_rmax. do 2 f_equal. f_equal. apply map_ext; intro i.
  unfold ln_rmw; f_equal; ring.
Qed.

Lemma rmax_array_scalar {A} (g : A -> R) l v a b c d rest eps log :
  rmax (Array (map g l)) (Scalar v) eps (a :: b :: c :: d :: rest) log
  = (inr (Array (map (fun i => exp (ln_rmw a b c d eps (g i) v)) l)), log).
Proof.
  run_rmax. do 2 f_equal. f_equal. apply map_ext; intro i.
  unfold ln_rmw; f_equal; ring.
Qed.

Lemma rmax_scalar_array {A} (h : A -> R) l u a b c d rest eps log :
  rmax (Scalar u) (Array (map h l)) eps (a :: b :: c :: d :: rest) log
  = (inr (Array (map (fun i => exp (ln_rmw a b c d eps u (h i))) l)), log).
Proof.
  run_rmax. do 2 f_equal. f_equal. apply map_ext; intro i.
  unfold ln_rmw; f_equal; ring.
Qed.

Lemma rmax_scalars u v a b c d rest eps log :
  rmax (Scalar u) (Scalar v) eps (a :: b :: c :: d :: rest) log
  = (inr (Scalar (exp (ln_rmw a b c d eps u v))), log).
Proof.
  run_rmax. do 3 f_equal. unfold ln_rmw; f_equal; ring.
Qed.

Lemma combine_fst {A B} (l : list A) (l' : list B) :
  length l = length l' -> map fst (combine l l') = l.
Proof.
  revert l'; induction l as [|u l IH]; intros [|v l'] E; simpl in *;
    try discriminate; auto. f_equal; apply IH; lia.
Qed.

Lemma combine_snd {A B} (l : list A) (l' : list B) :
  length l = length l' -> map snd (combine l l') = l'.
Proof.
  revert l'; induction l as [|u l IH]; intros [|v l'] E; simpl in *;
    try discriminate; auto. f_equal; apply IH; lia.
Qed.

Lemma rmax_eval dp lat a b c d rest eps log :
  shapes_agree dp lat ->
  rmax dp lat eps (a :: b :: c :: d :: rest) log
  = (inr (elementwise (fun u v => exp (ln_rmw a b c d eps u v)) dp lat), log).
Proof.
  destruct dp as [u|us], lat as [v|vs]; simpl; intros E.
  - apply rmax_scalars.
  - rewrite <- (map_id vs) at 1. apply (rmax_scalar_array (fun i => i)).
  - rewrite <- (map_id us) at 1. apply (rmax_array_scalar (fun i => i)).
  - rewrite <- (combine_fst us vs E) at 1. rewrite <- (combine_snd us vs E) at 2.
    apply rmax_arrays.
Qed.

Lemma rmax_short dp lat eps coeffs log :
  (length coeffs < 4)%nat ->
  rmax dp lat eps coeffs log = rmax dp lat eps default_coeffs (log ++ short_warnings).
Proof.
  intros H. apply Nat.ltb_lt in H. unfold rmax. rewrite H.
  change (length default_coeffs <? 4)%nat with false.
  unfold bind, LOG_warn, modify, ret. cbv beta iota.
  rewrite <- app_assoc. reflexivity.
Qed.

(** ** The formula *)

(** Claim C5.  With a coefficient vector [a, b, c, d] of four elements,
    [rmax] returns [exp(a + b*dp + c*dp^2 + d*lat^2 + eps)], element by
    element over scalars and over arrays of one length, and writes nothing
    to the log; with [dp = 0], [lat = 0], [eps = 0] and the coefficients
    [a, 0, 0, 0] the result is [exp a]. *)
Theorem rmax_is_exp_of_log_linear_form (a b c d eps : R) (log : LOG) :
  (forall dp lat, shapes_agree dp lat ->
     rmax dp lat eps [a; b; c; d] log
     = (inr (elementwise
               (fun u v => exp (a + b * u + c * u ^ 2 + d * v ^ 2 + eps))
               dp lat), log))
  /\ rmax (Scalar 0) (Scalar 0) 0 [a; 0; 0; 0] log = (inr (Scalar (exp a)), log).
Proof.
  split.
  - intros dp lat E. now rewrite rmax_eval.
  - rewrite rmax_scalars. do 3 f_equal. unfold ln_rmw. f_equal. ring.
Qed.

Lemma rmax_is_exp_of_log_linear_form_witness :
  rmax (Array [10; 20]) (Array [-15; -20]) 0 [1; 2; 3; 4] []
  = (inr (elementwise (fun u v => exp (1 + 2 * u + 3 * u ^ 2 + 4 * v ^ 2 + 0))
                      (Array [10; 20]) (Array [-15; -20])), []).
Proof.
  apply (proj1 (rmax_is_exp_of_log_linear_form 1 2 3 4 0 [])). reflexivity.
Defined.

(** ** Too few coefficients *)

(** Claim C6.  Given fewer than four coefficients, [rmax] writes its two
    warnings and goes on exactly as a call with the whole default vector
    would, using none of the coefficients it was given; with a scalar, or
    two arrays of one length, it does not raise and returns the value of
    the formula at the defaults. *)
Theorem rmax_short_coeffs_use_defaults dp lat eps coeffs log :
  (length coeffs < 4)%nat ->
  rmax dp lat eps coeffs log
  = rmax dp lat eps default_coeffs (log ++ short_warnings)
  /\ (shapes_agree dp lat ->
      rmax dp lat eps coeffs log
      = (inr (elementwise
                (fun u v =>
                   exp (4.4726049824584306 + -0.04057322103602546 * u
                        + 0.00031318220949448573 * u ^ 2
                        + 0.00014553984831170656 * v ^ 2 + eps))
                dp lat),
         log ++ short_warnings)).
Proof.
  intros H. split.
  - now apply rmax_short.
  - intros E. rewrite rmax_short by assumption.
    unfold default_coeffs. now rewrite rmax_eval.
Qed.

Lemma rmax_short_coeffs_use_defaults_witness :
  rmax (Scalar 25) (Scalar (-18)) 0 [1; 2; 3] []
  = rmax (Scalar 25) (Scalar (-18)) 0 default_coeffs ([] ++ short_warnings).
Proof.
  apply (rmax_short_coeffs_use_defaults (Scalar 25) (Scalar (-18)) 0 [1; 2; 3] []).
  simpl. lia.
Defined.

(** ** Lengths that do not agree *)

(** Claim C7.  When [dp] and [lat] are arrays of different lengths [rmax]
    raises AssertionError, and when the three sequences given to [fitRmax]
    are not of one length [fitRmax] raises AssertionError, whatever the
    solver: no value is computed. *)
Theorem mismatched_lengths_raise :
  (forall ds ls eps coeffs log,
      length ds <> length ls ->
      fst (rmax (Array ds) (Array ls) eps coeffs log) = inl AssertionError)
  /\ (forall (S : Solvers) rmw dp lat,
         ~ (length rmw = length dp /\ length dp = length lat) ->
         fitRmax rmw dp lat = inl AssertionError).
Proof.
  split.
  - intros ds ls eps coeffs log H. apply Nat.eqb_neq in H.
    unfold rmax, bind, assert, raise.
    destruct (length coeffs <? 4)%nat; cbn; rewrite H; reflexivity.
  - intros S rmw dp lat H. unfold fitRmax.
    destruct (length dp =? length lat)%nat eqn:E1; [|reflexivity].
    destruct (length rmw =? length dp)%nat eqn:E2; [|reflexivity].
    apply Nat.eqb_eq in E1, E2. tauto.
Qed.

Lemma mismatched_lengths_raise_witness :
  fst (rmax (Array [10; 20]) (Array [-15]) 0 default_coeffs []) = inl AssertionError
  /\ @fitRmax zero_fit [30; 40] [10; 20] [-15] = inl AssertionError.
Proof.
  split.
  - apply (proj1 mismatched_lengths_raise). simpl. lia.
  - apply (proj2 mismatched_lengths_raise). simpl. lia.
Defined.

(** ** Too few observations *)

Lemma Reqb_true a b : a = b -> Reqb a b = true.
Proof. intros H. unfold Reqb. destruct (Req_dec_T a b); [reflexivity|tauto]. Qed.

Lemma Reqb_false a b : a <> b -> Reqb a b = false.
Proof. intros H. unfold Reqb. destruct (Req_dec_T a b); [tauto|reflexivity]. Qed.

(** Claim C2, as the code has it.  [fitRmax] does not look at the number of
    observations and raises nothing of its own once the lengths agree.  For
    sequences of one length, however short: it returns whenever the three
    library routines return; what it returns is the solver's coefficients
    followed by the fitted scale, one number more than the solver gives;
    and what it raises is what one of the library routines raised. *)
Theorem fitRmax_has_no_count_check (L : Solvers) (rmw dp lat : list R) :
  length rmw = length dp -> length dp = length lat ->
  (forall X params r loc scale,
      add_constant (column_stack dp lat) = inr X ->
      OLS_fit X (map ln rmw) = inr (params, r) ->
      norm_fit r (np_mean r) (np_std r) = inr (loc, scale) ->
      fitRmax rmw dp lat = inr (params ++ [scale]))
  /\ (forall out,
         fitRmax rmw dp lat = inr out ->
         exists X params r loc scale,
           add_constant (column_stack dp lat) = inr X
           /\ OLS_fit X (map ln rmw) = inr (params, r)
           /\ norm_fit r (np_mean r) (np_std r) = inr (loc, scale)
           /\ out = params ++ [scale]
           /\ length out = S (length params))
  /\ (forall e,
         fitRmax rmw dp lat = inl e ->
         add_constant (column_stack dp lat) = inl e
         \/ exists X,
              add_constant (column_stack dp lat) = inr X
              /\ (OLS_fit X (map ln rmw) = inl e
                  \/ exists params r,
                       OLS_fit X (map ln rmw) = inr (params, r)
                       /\ norm_fit r (np_mean r) (np_std r) = inl e)).
Proof.
  intros E1 E2. unfold fitRmax.
  apply Nat.eqb_eq in E1, E2. rewrite E1, E2. cbn [negb].
  split; [|split].
  - intros X params r loc scale HX HO HN. now rewrite HX, HO, HN.
  - intros out.
    destruct (add_constant _) as [e|X] eqn:HX; [discriminate|].
    destruct (OLS_fit X _) as [e|[params r]] eqn:HO; [discriminate|].
    destruct (norm_fit r _ _) as [e|[loc scale]] eqn:HN; [discriminate|].
    intros H; injection H as <-. exists X, params, r, loc, scale.
    repeat split; try assumption. rewrite length_app. simpl. lia.
  - intros e H0.
    destruct (add_constant _) as [e0|X] eqn:HX;
      [injection H0 as ->; now left|].
    right. exists X. split; [reflexivity|].
    destruct (OLS_fit X _) as [e0|[params r]] eqn:HO;
      [injection H0 as ->; now left|].
    right. exists params, r. split; [reflexivity|].
    destruct (norm_fit r _ _) as [e0|[loc scale]]; [|discriminate].
    injection H0 as ->. reflexivity.
Qed.

Lemma fitRmax_has_no_count_check_witness :
  (length [10; 20] < 4)%nat
  /\ exists scale,
       @fitRmax zero_fit [1; 1] [10; 20] [-15; -20] = inr ([0; 0; 0; 0] ++ [scale]).
Proof.
  split; [simpl; lia|]. eexists.
  apply (proj1 (@fitRmax_has_no_count_check zero_fit [1; 1] [10; 20] [-15; -20]
                  eq_refl eq_refl))
    with (X := map (cons 1) (column_stack [10; 20] [-15; -20]))
         (r := map ln [1; 1]) (loc := np_mean (map ln [1; 1])).
  - cbn. rewrite (@Reqb_false 10 20), (@Reqb_false (10 * 10) (20 * 20)),
      (@Reqb_false (-15 * -15) (-20 * -20)) by lra.
    rewrite !andb_false_r. reflexivity.
  - reflexivity.
  - reflexivity.
Defined.

(** Claim C2, as stated, fails: one observation is fewer than the four
    free parameters, and [fitRmax] returns five numbers for it. *)
Lemma fitRmax_one_observation :
  (length [1] < 4)%nat /\ @fitRmax zero_fit [1] [0] [0] = inr [0; 0; 0; 0; 0].
Proof.
  split; [simpl; lia|].
  unfold fitRmax. cbn.
  rewrite !(@Reqb_true 0 (0 * 0)) by ring. rewrite ?Reqb_true by reflexivity.
  cbn. unfold np_std, np_mean; simpl. rewrite ln_1.
  do 6 f_equal.
  replace ((0 + 0) / 1) with 0 by field.
  replace (((0 - 0) * (0 - 0) + 0) / 1) with 0 by field.
  apply sqrt_0.
Qed.

End TrackSizeProofs.

(** * Properties of KDEOrigin.py *)

Module KDEOriginProofs.

Import Py KDEOrigin.
Local Open Scope Q_scope.

(** ** Comparisons *)

Lemma Qlt_bool_iff a b : Qlt_bool a b = true <-> a < b.
Proof.
  unfold Qlt_bool. rewrite negb_true_iff. split; intros H.
  - apply Qnot_le_lt. intros H'. apply Qle_bool_iff in H'. congruence.
  - destruct (Qle_bool b a) eqn:E; auto. apply Qle_bool_iff in E. lra.
Qed.

Lemma Qeq_bool_false a b : ~ a == b -> Qeq_bool a b = false.
Proof.
  intros H. destruct (Qeq_bool a b) eqn:E; auto. apply Qeq_bool_iff in E. tauto.
Qed.

Lemma Qlt_bool_false a b : b <= a -> Qlt_bool a b = false.
Proof. intros H. unfold Qlt_bool. apply Qle_bool_iff in H. now rewrite H. Qed.

Lemma Qle_bool_false a b : b < a -> Qle_bool a b = false.
Proof.
  intros H. destruct (Qle_bool a b) eqn:E; auto. apply Qle_bool_iff in E. lra.
Qed.

Section WithUtilities.

Context {U : Utilities}.

(** ** The coordinate sequences *)

Lemma arange_eq start stop step :
  ~ step == 0 ->
  arange start stop step
  = inr (map (arange_nth start step) (seq 0 (arange_len start stop step))).
Proof. intros H. unfold arange. now rewrite Qeq_bool_false. Qed.

(** ** Contour levels *)

Lemma pow10_pos e : 0 < 10 ^ e.
Proof. apply Qpower_0_lt. reflexivity. Qed.

Lemma pow10_succ e : 10 ^ (e + 1) == 10 ^ e * 10.
Proof. rewrite Qpower_plus by discriminate. reflexivity. Qed.

Lemma pow10_pred e : 10 ^ (e - 1) == 10 ^ e / 10.
Proof.
  unfold Z.sub. rewrite Qpower_plus by discriminate. reflexivity.
Qed.

Lemma log10_ge1_spec fuel : forall q,
  1 <= q -> q < 10 ^ Z.of_nat fuel ->
  10 ^ log10_ge1 fuel q <= q /\ q < 10 ^ (log10_ge1 fuel q + 1).
Proof.
  induction fuel as [|f IH]; intros q H1 Hf.
  - simpl in Hf. lra.
  - cbn [log10_ge1]. destruct (Qle_bool 10 q) eqn:E.
    + apply Qle_bool_iff in E.
      rewrite Nat2Z.inj_succ in Hf. unfold Z.succ in Hf. rewrite pow10_succ in Hf.
      destruct (IH (q / 10)) as [A B].
      * apply Qle_shift_div_l; lra.
      * apply Qlt_shift_div_r; lra.
      * rewrite (Z.add_comm 1), !pow10_succ in *.
        assert (Eq : q / 10 * 10 == q) by field.
        pose proof (pow10_pos (log10_ge1 f (q / 10))). split; nra.
    + assert (q < 10).
      { apply Qnot_le_lt. intros H. apply Qle_bool_iff in H. congruence. }
      simpl. lra.
Qed.

Lemma log10_lt1_spec fuel : forall q,
  0 < q -> q < 1 -> 1 <= q * 10 ^ Z.of_nat fuel ->
  10 ^ log10_lt1 fuel q <= q /\ q < 10 ^ (log10_lt1 fuel q + 1).
Proof.
  induction fuel as [|f IH]; intros q H0 H1 Hf.
  - simpl in Hf. lra.
  - cbn [log10_lt1]. destruct (Qle_bool 1 q) eqn:E.
    + apply Qle_bool_iff in E. lra.
    + rewrite Nat2Z.inj_succ in Hf. unfold Z.succ in Hf. rewrite pow10_succ in Hf.
      replace (log10_lt1 f (q * 10) - 1 + 1)%Z with (log10_lt1 f (q * 10)) by lia.
      rewrite pow10_pred.
      destruct (Qlt_le_dec (q * 10) 1) as [L|L].
      * destruct (IH (q * 10)) as [A B]; try lra.
        rewrite pow10_succ in B.
        pose proof (pow10_pos (log10_lt1 f (q * 10))).
        split.
        -- apply Qle_shift_div_r; lra.
        -- lra.
      * assert (Z0 : log10_lt1 f (q * 10) = 0%Z).
        { destruct f; simpl; auto.
          apply Qle_bool_iff in L. now rewrite L. }
        rewrite Z0. simpl. split; [|lra]. apply Qle_shift_div_r; lra.
Qed.

Lemma lt_pow10_log2 m k :
  (0 < m)%Z -> (0 <= k)%Z -> (m < 10 ^ (1 + Z.log2 m + k))%Z.
Proof.
  intros Hm Hk. pose proof (Z.log2_spec m Hm) as [_ H].
  pose proof (Z.log2_nonneg m) as Hl.
  apply Z.lt_le_trans with (1 := H).
  apply Z.le_trans with (10 ^ Z.succ (Z.log2 m))%Z.
  - apply Z.pow_le_mono_l; lia.
  - apply Z.pow_le_mono_r; lia.
Qed.

Lemma log10_fuel_Z q :
  Z.of_nat (log10_fuel q) = (1 + (Z.log2 (Qnum q) + Z.log2 (Zpos (Qden q))))%Z.
Proof.
  unfold log10_fuel.
  pose proof (Z.log2_nonneg (Qnum q)). pose proof (Z.log2_nonneg (Zpos (Qden q))).
  lia.
Qed.

Lemma log10_fuel_above q : 0 < q -> q < 10 ^ Z.of_nat (log10_fuel q).
Proof.
  intros Hq. rewrite log10_fuel_Z.
  pose proof (Z.log2_nonneg (Qnum q)); pose proof (Z.log2_nonneg (Zpos (Qden q))).
  rewrite <- (Zpower_Qpower 10) by lia.
  destruct q as [n d]. unfold Qlt in *. cbn [Qnum Qden inject_Z] in *.
  assert (Hn : (0 < n)%Z) by lia.
  pose proof (@lt_pow10_log2 n (Z.log2 (Zpos d)) Hn (Z.log2_nonneg _)) as B.
  rewrite Z.add_assoc. nia.
Qed.

Lemma log10_fuel_below q : 0 < q -> 1 <= q * 10 ^ Z.of_nat (log10_fuel q).
Proof.
  intros Hq. rewrite log10_fuel_Z.
  pose proof (Z.log2_nonneg (Qnum q)); pose proof (Z.log2_nonneg (Zpos (Qden q))).
  rewrite <- (Zpower_Qpower 10) by lia.
  destruct q as [n d]. unfold Qlt, Qle in *. cbn [Qnum Qden inject_Z Qmult] in *.
  assert (Hn : (0 < n)%Z) by lia.
  pose proof (@lt_pow10_log2 (Zpos d) (Z.log2 n) eq_refl (Z.log2_nonneg _)) as B.
  replace (1 + (Z.log2 n + Z.log2 (Z.pos d)))%Z
    with (1 + Z.log2 (Z.pos d) + Z.log2 n)%Z by lia.
  nia.
Qed.

(** [floor_log10 q] is the integer part of the decimal logarithm. *)
Lemma floor_log10_spec q :
  0 < q -> 10 ^ floor_log10 q <= q /\ q < 10 ^ (floor_log10 q + 1).
Proof.
  intros Hq. unfold floor_log10. destruct (Qle_bool 1 q) eqn:E.
  - apply Qle_bool_iff in E. apply log10_ge1_spec; auto using log10_fuel_above.
  - assert (q < 1).
    { apply Qnot_le_lt. intros H. apply Qle_bool_iff in H. congruence. }
    apply log10_lt1_spec; auto using log10_fuel_below.
Qed.

Lemma significand_range q :
  0 < q -> 1 <= q * 10 ^ (- floor_log10 q) /\ q * 10 ^ (- floor_log10 q) < 10.
Proof.
  intros Hq. destruct (floor_log10_spec Hq) as [A B].
  rewrite pow10_succ in B. rewrite Qpower_opp.
  pose proof (pow10_pos (floor_log10 q)) as P.
  split.
  - apply Qle_shift_div_l; lra.
  - apply Qlt_shift_div_r; lra.
Qed.

(** In a descending list, [find] returns the largest element that passes. *)
Lemma find_in_descending (P : Q -> bool) l step :
  StronglySorted (fun u v => v <= u) l ->
  find P l = Some step ->
  In step l /\ P step = true /\ forall s, In s l -> P s = true -> s <= step.
Proof.
  intros Hl; induction Hl as [|a l Hl IH Ha]; simpl; [discriminate|].
  destruct (P a) eqn:E; intros F.
  - injection F as <-. repeat split; auto.
    intros s [<-|Hs] _; [lra|]. rewrite Forall_forall in Ha. auto.
  - destruct (IH F) as [A [B C]]. repeat split; auto.
    intros s [<-|Hs] Ps; [congruence|auto].
Qed.

Lemma lvls_options_descending : StronglySorted (fun u v => v <= u) lvls_options.
Proof.
  unfold lvls_options.
  repeat (constructor; [|repeat (constructor; [unfold Qle; simpl; lia|]); constructor]).
  constructor.
Qed.

Lemma lvls_options_pos s : In s lvls_options -> 0 < s.
Proof.
  unfold lvls_options; simpl.
  intros [<-|[<-|[<-|[<-|[<-|[]]]]]]; reflexivity.
Qed.

Lemma preserves_ret {X A} (f : KDEOrigin -> X) (a : A) : preserves f (ret a).
Proof. intros s; reflexivity. Qed.

Lemma preserves_raise {X A} (f : KDEOrigin -> X) e : preserves f (@raise _ A e).
Proof. intros s; reflexivity. Qed.

Lemma preserves_lift {X A} (f : KDEOrigin -> X) (r : exn + A) : preserves f (lift r).
Proof. intros s; reflexivity. Qed.

Lemma preserves_get {X} (f : KDEOrigin -> X) : preserves f get.
Proof. intros s; reflexivity. Qed.

Lemma preserves_modify {X} (f : KDEOrigin -> X) g :
  (forall s, f (g s) = f s) -> preserves f (modify g).
Proof. intros H s; apply H. Qed.

Lemma preserves_bind {X A B} (f : KDEOrigin -> X) (m : M KDEOrigin A)
  (k : A -> M KDEOrigin B) :
  preserves f m -> (forall a, preserves f (k a)) -> preserves f (bind m k).
Proof.
  intros Hm Hk s. unfold bind. specialize (Hm s).
  destruct (m s) as [[e|a] s']; simpl in *; [assumption|].
  now rewrite Hk.
Qed.

Lemma preserves_getattr {X A} (f : KDEOrigin -> X) (field : KDEOrigin -> option A) n :
  preserves f (getattr field n).
Proof.
  unfold getattr. apply preserves_bind; [apply preserves_get|].
  intros self. destruct (field self); [apply preserves_ret|apply preserves_raise].
Qed.

Ltac preserves_step :=
  first [ apply preserves_ret | apply preserves_raise | apply preserves_lift
        | apply preserves_get | apply preserves_getattr
        | apply preserves_modify; intros; reflexivity
        | apply preserves_bind; [|intros]
        | match goal with
          | |- preserves _ (match ?t with _ => _ end) => destruct t
          end ].

Lemma _generatePDF_preserves {X} (f : KDEOrigin -> X) g b :
  preserves f (_generatePDF g b).
Proof. unfold _generatePDF. repeat preserves_step. Qed.

Lemma generateKDE_override bw_arg save self :
  generateKDE bw_arg save self = generateKDE None save (override bw_arg self).
Proof.
  unfold generateKDE, override, bind, get, modify, ret.
  destruct bw_arg as [b|]; [destruct (truthy b)|]; reflexivity.
Qed.

Lemma generateKDE_preserves_bw save : preserves bw (generateKDE None save).
Proof.
  unfold generateKDE. repeat preserves_step. apply _generatePDF_preserves.
Qed.

Lemma generateCdf_preserves_bw save : preserves bw (generateCdf save).
Proof. unfold generateCdf. repeat preserves_step. Qed.

Lemma generateKDE_bw bw_arg save self :
  bw (snd (generateKDE bw_arg save self)) = effective_bw bw_arg self.
Proof.
  rewrite generateKDE_override, generateKDE_preserves_bw. reflexivity.
Qed.

Lemma exec_no_override c self : no_override c -> bw (exec c self) = bw self.
Proof.
  destruct c as [[b|] save|save]; simpl; intros H.
  - rewrite generateKDE_bw. unfold effective_bw, override. now rewrite H.
  - now rewrite generateKDE_bw.
  - apply generateCdf_preserves_bw.
Qed.

Lemma exec_all_no_override cs : forall self,
  Forall no_override cs -> bw (exec_all cs self) = bw self.
Proof.
  induction cs as [|c cs IH]; intros self H; [reflexivity|].
  inversion H; subst.
  change (exec_all (c :: cs) self) with (exec_all cs (exec c self)).
  rewrite IH by assumption. now apply exec_no_override.
Qed.

Lemma set_bw_same self : set_bw (bw self) self = self.
Proof. now destruct self. Qed.

(** Claim C10.  A call of [generateKDE] with a bandwidth that counts as
    true stores that bandwidth, whether the call returns or raises.  It is
    still the stored bandwidth after any further calls that pass no
    bandwidth of their own, and a call without one then does what a call
    with the replacement would do. *)
Theorem override_replaces_stored_bandwidth b save self :
  truthy b = true ->
  let self' := snd (generateKDE (Some b) save self) in
  bw self' = b
  /\ forall later, Forall no_override later ->
       bw (exec_all later self') = b
       /\ forall save',
            generateKDE None save' (exec_all later self')
            = generateKDE (Some b) save' (exec_all later self').
Proof.
  intros T self'.
  assert (E : bw self' = b).
  { unfold self'. rewrite generateKDE_bw. unfold effective_bw, override.
    now rewrite T. }
  split; [assumption|]. intros later H.
  assert (E' : bw (exec_all later self') = b).
  { now rewrite exec_all_no_override. }
  split; [assumption|]. intros save'.
  rewrite (generateKDE_override (Some b)). simpl. rewrite T.
  now rewrite <- E', set_bw_same.
Qed.

(** ** Bandwidths that are refused *)

Lemma _generatePDF_rejects grid2d b self :
  b <= 0 -> _generatePDF grid2d b self = (inl (ValueError (bw_message b)), self).
Proof.
  intros H. unfold _generatePDF. apply Qle_bool_iff in H. now rewrite H.
Qed.

Lemma _generatePDF_runs grid2d b self kdeMethod :
  0 < b -> KPDF_getattr ("MPDF" ++ kdeType self) = Some kdeMethod ->
  _generatePDF grid2d b self = (kdeMethod (lonLat self) grid2d b, self).
Proof.
  intros H K. unfold _generatePDF, bind, get, lift.
  rewrite Qle_bool_false by assumption. now rewrite K.
Qed.

Lemma generateKDE_rejects save self :
  bw self <= 0 ->
  generateKDE None save self = (inl (ValueError (bw_message (bw self))), self).
Proof.
  intros H. unfold generateKDE, bind, get, ret. cbv beta iota.
  now rewrite _generatePDF_rejects.
Qed.

(** Claim C1, as the code has it.  [_generatePDF] raises ValueError for
    every bandwidth that is zero or negative, whatever the observations,
    with a message that shows the value as ['%d'] prints it, and leaves the
    object as it was.  [generateKDE] with a negative bandwidth argument
    stores it and raises that error; no PDF is assigned.  A bandwidth
    argument equal to zero counts as none: the call is the call without a
    bandwidth. *)
Theorem nonpositive_bandwidth_is_rejected :
  (forall grid2d b self,
      b <= 0 ->
      _generatePDF grid2d b self = (inl (ValueError (bw_message b)), self))
  /\ (forall b save self,
         b < 0 ->
         generateKDE (Some b) save self
         = (inl (ValueError (bw_message b)), set_bw b self)
         /\ pdf (set_bw b self) = pdf self)
  /\ (forall b save self,
         b == 0 ->
         generateKDE (Some b) save self = generateKDE None save self).
Proof.
  split; [|split].
  - intros; now apply _generatePDF_rejects.
  - intros b save self H. split; [|reflexivity].
    rewrite generateKDE_override. unfold override, truthy.
    rewrite Qeq_bool_false by lra. simpl.
    rewrite generateKDE_rejects; simpl; [reflexivity|lra].
  - intros b save self H. rewrite generateKDE_override. unfold override, truthy.
    apply Qeq_bool_iff in H. now rewrite H.
Qed.

(** ** [generateKDE] step by step *)

Lemma _generatePDF_state grid2d b self :
  _generatePDF grid2d b self = (fst (_generatePDF grid2d b self), self).
Proof.
  rewrite (surjective_pairing (_generatePDF grid2d b self)) at 1.
  f_equal. apply (_generatePDF_preserves (fun s => s)).
Qed.

Lemma _generatePDF_ignores_pdf grid2d b p self :
  fst (_generatePDF grid2d b (set_pdf p self)) = fst (_generatePDF grid2d b self).
Proof.
  unfold _generatePDF, bind, get, raise, lift.
  destruct (Qle_bool b 0); [reflexivity|]. cbn [kdeType lonLat set_pdf].
  destruct (KPDF_getattr _); reflexivity.
Qed.

Lemma generateKDE_steps save self :
  generateKDE None save self
  = match fst (_generatePDF (MPDF2DGrid2Array (x self) (y self)) (bw self) self) with
    | inl e => (inl e, self)
    | inr raw =>
        match reshape (map (fun v => v / Qsum raw) raw) (length (x self)) with
        | inl e => (inl e, self)
        | inr pdf2 =>
            let p := transpose (length (x self)) pdf2 in
            (if save then save_outcome pdf2 self
             else inr (Some (x self, y self, p)),
             set_pdf p self)
        end
    end.
Proof.
  unfold generateKDE, bind, get, ret. cbv beta iota.
  rewrite _generatePDF_state. cbn [fst].
  destruct (fst (_generatePDF _ (bw self) self)) as [e|raw]; [reflexivity|].
  unfold lift. destruct (reshape _ _) as [e|pdf2]; [reflexivity|].
  unfold modify. cbv beta iota zeta.
  destruct save; [|reflexivity].
  unfold save_outcome, getattr, bind, get, ret, raise, lift. cbn [processPath outputPath set_pdf].
  destruct (processPath self); [|reflexivity].
  destruct (np_max _); [reflexivity|].
  destruct (contour_levels _); [reflexivity|].
  cbn [outputPath set_pdf]. destruct (outputPath self); reflexivity.
Qed.

Lemma override_keeps bw_arg self :
  configFile (override bw_arg self) = configFile self
  /\ kdeStep (override bw_arg self) = kdeStep self
  /\ outputPath (override bw_arg self) = outputPath self
  /\ processPath (override bw_arg self) = processPath self
  /\ pdf (override bw_arg self) = pdf self
  /\ cz (override bw_arg self) = cz self.
Proof.
  unfold override. destruct bw_arg as [b|]; [destruct (truthy b)|]; simpl; tauto.
Qed.

(** ** The CDF before the PDF *)

Lemma fails_before_store_keeps_pdf c self :
  fails_before_store c self -> pdf (exec c self) = pdf self.
Proof.
  destruct c as [bw_arg save|save]; cbn [fails_before_store exec].
  - intros [e E]. revert E.
    rewrite !(generateKDE_override bw_arg), !generateKDE_steps.
    destruct (override_keeps bw_arg self) as (_ & _ & _ & _ & Ep & _).
    destruct (fst (_generatePDF _ _ _)) as [e1|raw]; [intros _; exact Ep|].
    destruct (reshape _ _) as [e1|pdf2]; [intros _; exact Ep|].
    cbv zeta. discriminate.
  - intros _. unfold generateCdf, getattr, bind, get, ret, raise, modify.
    destruct (pdf self) eqn:E; [|exact E].
    destruct save; cbn [processPath set_cz cz].
    + destruct (processPath self); exact E.
    + exact E.
Qed.

(** Claim C4, as the code has it.  A new object has no [pdf] and no [cz].
    As long as [pdf] has not been assigned, [generateCdf] raises
    AttributeError for [pdf] and leaves the object as it was, so no CDF is
    stored; and [pdf] stays unassigned through every sequence of calls of
    [generateCdf] and of calls of [generateKDE] that raise while the PDF
    is computed.  Once [pdf] is assigned [generateCdf] stores the CDF of
    it and does not raise that error, whether or not the call that
    assigned it went on to return. *)
Theorem generateCdf_needs_pdf :
  (forall cf kt gl st ll self,
      __init__ cf kt gl st ll = inr self -> pdf self = None /\ cz self = None)
  /\ (forall save self,
         pdf self = None ->
         generateCdf save self = (inl (AttributeError "pdf"), self))
  /\ (forall cs self,
         pdf self = None -> stores_no_pdf cs self ->
         pdf (exec_all cs self) = None)
  /\ (forall save self p,
         pdf self = Some p ->
         fst (generateCdf save self) <> inl (AttributeError "pdf")
         /\ cz (snd (generateCdf save self)) = Some (cdf2d (x self) (y self) p)).
Proof.
  split; [|split; [|split]].
  - intros cf kt gl st ll self. unfold __init__.
    destruct (arange _ _ st); [discriminate|].
    destruct (arange _ _ (- st)); [discriminate|].
    intros H; injection H as <-. split; reflexivity.
  - intros save self H. unfold generateCdf, getattr, bind, get, raise.
    now rewrite H.
  - induction cs as [|c cs IH]; intros self H N; [exact H|].
    destruct N as [N1 N2].
    change (exec_all (c :: cs) self) with (exec_all cs (exec c self)).
    apply IH; [|exact N2].
    now rewrite (fails_before_store_keeps_pdf _ _ N1).
  - intros save self p H.
    unfold generateCdf, getattr, bind, get, ret, raise, modify.
    rewrite H. destruct save; cbn.
    + destruct (processPath self); cbn;
        (split; [intros H0; discriminate H0|reflexivity]).
    + split; [intros H0; discriminate H0|reflexivity].
Qed.

(** ** The normalised grid *)

Lemma Qsum_app l l' : Qsum (l ++ l') == Qsum l + Qsum l'.
Proof. induction l as [|v l IH]; simpl; [ring|]. rewrite IH. ring. Qed.

Lemma Qsum_scaled s l : Qsum (map (fun v => v / s) l) == Qsum l / s.
Proof.
  induction l as [|v l IH]; simpl.
  - unfold Qdiv. ring.
  - rewrite IH. unfold Qdiv. ring.
Qed.

Lemma concat_chunks rows cols : forall l,
  length l = (rows * cols)%nat -> concat (chunks rows cols l) = l.
Proof.
  induction rows as [|r IH]; intros l H; simpl in *.
  - now apply length_zero_iff_nil in H.
  - rewrite IH; [apply firstn_skipn|]. rewrite length_skipn. lia.
Qed.

Lemma chunks_widths rows cols : forall l,
  length l = (rows * cols)%nat ->
  Forall (fun r => length r = cols) (chunks rows cols l).
Proof.
  induction rows as [|r IH]; intros l H; simpl in *; constructor.
  - rewrite length_firstn. lia.
  - apply IH. rewrite length_skipn. lia.
Qed.

Lemma transpose_length cols a :
  Forall (fun r => length r = cols) a -> length (transpose cols a) = cols.
Proof.
  induction 1 as [|r a Hr Ha IH]; simpl.
  - apply repeat_length.
  - rewrite length_map, length_combine, IH, Hr. apply Nat.min_id.
Qed.

Lemma Qsum_cons_columns : forall (r : list Q) (t : grid),
  length r = length t ->
  Qsum (concat (map (fun p => fst p :: snd p) (combine r t)))
  == Qsum r + Qsum (concat t).
Proof.
  induction r as [|v r IH]; intros [|c t] H; simpl in *; try discriminate.
  - ring.
  - rewrite Qsum_app, IH by lia. rewrite Qsum_app. ring.
Qed.

Lemma Qsum_transpose cols a :
  Forall (fun r => length r = cols) a ->
  Qsum (concat (transpose cols a)) == Qsum (concat a).
Proof.
  induction 1 as [|r a Hr Ha IH]; simpl.
  - induction cols; simpl; [reflexivity|assumption].
  - rewrite Qsum_cons_columns, Qsum_app, IH; [reflexivity|].
    now rewrite transpose_length.
Qed.

Lemma Forall_concat_iff {A} (P : A -> Prop) (g : list (list A)) :
  Forall (Forall P) g <-> Forall P (concat g).
Proof.
  induction g as [|r g IH]; simpl.
  - split; constructor.
  - rewrite Forall_app, <- IH. split.
    + intros H; inversion H; tauto.
    + intros [H1 H2]; now constructor.
Qed.

Lemma Forall_cons_columns (P : Q -> Prop) : forall (r : list Q) (t : grid),
  Forall P r -> Forall (Forall P) t ->
  Forall (Forall P) (map (fun p => fst p :: snd p) (combine r t)).
Proof.
  induction r as [|v r IH]; intros [|c t] Hr Ht; simpl; try constructor.
  - inversion Hr; inversion Ht; subst. now constructor.
  - inversion Hr; inversion Ht; subst. now apply IH.
Qed.

Lemma Forall_transpose (P : Q -> Prop) cols a :
  Forall (Forall P) a -> Forall (Forall P) (transpose cols a).
Proof.
  induction 1 as [|r a Hr Ha IH]; simpl.
  - apply Forall_forall. intros l Hl. apply repeat_spec in Hl. subst. constructor.
  - now apply Forall_cons_columns.
Qed.

Lemma reshape_exact l rows cols :
  (0 < cols)%nat -> length l = (rows * cols)%nat ->
  reshape l cols = inr (chunks rows cols l).
Proof.
  intros Hc Hl. unfold reshape.
  destruct (cols =? 0)%nat eqn:E; [apply Nat.eqb_eq in E; lia|].
  rewrite Hl, Nat.div_mul by lia. now rewrite Nat.eqb_refl.
Qed.

Lemma grid_points_length xs ys :
  length (MPDF2DGrid2Array xs ys) = (length ys * length xs)%nat.
Proof.
  unfold MPDF2DGrid2Array. induction ys as [|v ys IH]; simpl; [reflexivity|].
  now rewrite length_app, length_map, IH.
Qed.

Lemma Qsum_pos_nonempty l : 0 < Qsum l -> (0 < length l)%nat.
Proof. destruct l; simpl; [intros H; lra|lia]. Qed.

Lemma override_frame bw_arg self :
  x (override bw_arg self) = x self /\ y (override bw_arg self) = y self
  /\ kdeType (override bw_arg self) = kdeType self
  /\ lonLat (override bw_arg self) = lonLat self.
Proof.
  unfold override. destruct bw_arg as [b|]; [destruct (truthy b)|]; simpl; tauto.
Qed.

Lemma generateKDE_normalises self kdeMethod raw :
  0 < bw self ->
  KPDF_getattr ("MPDF" ++ kdeType self) = Some kdeMethod ->
  kdeMethod (lonLat self) (MPDF2DGrid2Array (x self) (y self)) (bw self) = inr raw ->
  length raw = length (MPDF2DGrid2Array (x self) (y self)) ->
  Forall nonneg raw -> 0 < Qsum raw ->
  exists p,
    generateKDE None false self = (inr (Some (x self, y self, p)), set_pdf p self)
    /\ Forall (Forall nonneg) p /\ Qsum (concat p) == 1.
Proof.
  intros Hb K R L N S. rewrite grid_points_length in L.
  set (pdf1 := map (fun v => v / Qsum raw) raw).
  assert (L1 : length pdf1 = (length (y self) * length (x self))%nat).
  { unfold pdf1. now rewrite length_map. }
  assert (Hx : (0 < length (x self))%nat).
  { apply Qsum_pos_nonempty in S. rewrite L in S.
    destruct (length (x self)); lia. }
  exists (transpose (length (x self)) (chunks (length (y self)) (length (x self)) pdf1)).
  split; [|split].
  - unfold generateKDE, bind, get, modify, ret, lift, getattr. cbv beta iota.
    rewrite _generatePDF_runs with (kdeMethod := kdeMethod) by assumption. rewrite R. cbv beta iota.
    fold pdf1. rewrite reshape_exact with (rows := length (y self)) by assumption. reflexivity.
  - apply Forall_transpose. apply Forall_concat_iff.
    rewrite concat_chunks by assumption. unfold pdf1.
    apply Forall_map. revert N. apply Forall_impl. intros v Hv. unfold nonneg in *.
    apply Qle_shift_div_l; lra.
  - rewrite Qsum_transpose by (now apply chunks_widths).
    rewrite concat_chunks by assumption. unfold pdf1.
    rewrite Qsum_scaled. field. lra.
Qed.

(** Claim C3.  Let the bandwidth in effect be positive and let the kernel
    routine, which is outside the sources, return one value for each grid
    point, none negative and with a positive total, as a sum of kernels
    over a non-empty observation set does.  Then [generateKDE] returns the
    coordinate sequences and a grid it has also stored, whose entries are
    not negative and sum to 1 within the tolerance.  In the arithmetic of
    this model the quotients by the total sum to 1 exactly; the statement
    keeps the room the claim leaves for the rounding of the floats. *)
Theorem normalised_pdf_sums_to_one bw_arg self kdeMethod raw :
  0 < effective_bw bw_arg self ->
  KPDF_getattr ("MPDF" ++ kdeType self) = Some kdeMethod ->
  kdeMethod (lonLat self) (MPDF2DGrid2Array (x self) (y self))
            (effective_bw bw_arg self) = inr raw ->
  length raw = length (MPDF2DGrid2Array (x self) (y self)) ->
  Forall nonneg raw -> 0 < Qsum raw ->
  exists p,
    generateKDE bw_arg false self
    = (inr (Some (x self, y self, p)), set_pdf p (override bw_arg self))
    /\ Forall (Forall nonneg) p
    /\ 1 - tolerance <= Qsum (concat p) <= 1 + tolerance.
Proof.
  intros Hb K R L N S.
  destruct (override_frame bw_arg self) as [Ex [Ey [Ek El]]].
  rewrite generateKDE_override. unfold effective_bw in *.
  rewrite <- Ex, <- Ey, <- Ek, <- El in *.
  destruct (@generateKDE_normalises (override bw_arg self) kdeMethod raw
              Hb K R L N S) as (p & G & P & T).
  exists p. split; [exact G|]. split; [exact P|].
  rewrite T. split; discriminate.
Qed.

End WithUtilities.

(** ** The claims on data *)

Lemma override_replaces_stored_bandwidth_witness :
  exists self, new_model unit_square = inr self
    /\ let self' := snd (@generateKDE demo (Some 2) false self) in
       bw self' = 2
       /\ forall later, Forall no_override later ->
            bw (@exec_all demo later self') = 2
            /\ forall save',
                 @generateKDE demo None save' (@exec_all demo later self')
                 = @generateKDE demo (Some 2) save' (@exec_all demo later self').
Proof.
  eexists. split; [reflexivity|].
  apply (@override_replaces_stored_bandwidth demo 2 false). reflexivity.
Defined.

Lemma nonpositive_bandwidth_is_rejected_witness :
  exists self, new_model unit_square = inr self
    /\ @_generatePDF demo [] (-1) self
       = (inl (ValueError (bw_message (-1))), self)
    /\ @generateKDE demo (Some (-0.5)) false self
       = (inl (ValueError (bw_message (-0.5))), set_bw (-0.5) self).
Proof.
  eexists. split; [reflexivity|]. split.
  - apply (proj1 (@nonpositive_bandwidth_is_rejected demo)).
    unfold Qle; simpl; lia.
  - apply (proj1 (proj2 (@nonpositive_bandwidth_is_rejected demo))).
    reflexivity.
Defined.

(** Claim C1, as stated, fails: the bandwidth argument 0 is not positive,
    and the call returns a PDF computed with the stored bandwidth. *)
Lemma zero_bandwidth_argument_is_accepted :
  exists self out self',
    new_model unit_square = inr self
    /\ 0 <= 0
    /\ @generateKDE demo (Some 0) false self = (inr out, self').
Proof.
  do 3 eexists. split; [reflexivity|]. split; [apply Qle_refl|].
  lazy. reflexivity.
Qed.

Lemma generateCdf_needs_pdf_witness :
  exists self,
    new_model unit_square = inr self
    /\ let s1 := @exec_all demo [GenerateKDE (Some (-1)) true; GenerateCdf true]
                            self in
       pdf s1 = None
       /\ @generateCdf demo false s1 = (inl (AttributeError "pdf"), s1).
Proof.
  eexists. split; [reflexivity|]. cbv zeta.
  destruct (@generateCdf_needs_pdf demo) as (_ & A & B & _).
  assert (N : pdf (@exec_all demo [GenerateKDE (Some (-1)) true; GenerateCdf true]
                     {| configFile := "tcrm.ini"; x := [0; 0.5]; y := [1; 0.5];
                        kdeType := "InverseQuadratic"; kdeStep := 0.5;
                        outputPath := None; processPath := None;
                        lonLat := one_origin; bw := 1;
                        pdf := None; cz := None |}) = None).
  { apply B; [reflexivity|].
    split; [eexists; lazy; reflexivity|]. split; [exact I|exact I]. }
  split; [exact N|]. apply A. exact N.
Defined.

(** Claim C4, as stated, fails: the only call of [generateKDE] on this
    object raises while saving and so does not complete, and [generateCdf]
    then returns a CDF. *)
Lemma generateCdf_after_failed_save :
  exists self e s1 c,
    new_model unit_square = inr self
    /\ @generateKDE demo None true self = (inl e, s1)
    /\ @generateCdf demo false s1 = (inr (Some c), set_cz c s1).
Proof.
  do 4 eexists. split; [reflexivity|].
  split; lazy; reflexivity.
Qed.

Lemma normalised_pdf_sums_to_one_witness :
  exists self, new_model unit_square = inr self
    /\ exists p,
         @generateKDE demo None false self
         = (inr (Some (x self, y self, p)), set_pdf p (override None self))
         /\ Forall (Forall nonneg) p
         /\ 1 - tolerance <= Qsum (concat p) <= 1 + tolerance.
Proof.
  eexists. split; [reflexivity|].
  eapply (@normalised_pdf_sums_to_one demo None).
  - reflexivity.
  - reflexivity.
  - lazy. reflexivity.
  - reflexivity.
  - repeat constructor; discriminate.
  - reflexivity.
Defined.

End KDEOriginProofs.

(** * The coordinate sequences in binary64 *)

Module Binary64Proofs.

Import Binary64 PrimFloat.
Local Open Scope float_scope.
#[local] Set Warnings "-inexact-float".

(** Claim C8 fails on the code.  Over the domain from 1 to 1.3 and from
    -1.3 to -1 with the script's step 0.1, the quotient of the width by
    the step rounds to a float above 3, so each sequence gets four values
    and the last one lies beyond the bound it should stay clear of: above
    [xMax], and below [yMin].  In exact arithmetic the same calls give
    three values, all on the near side of the bound. *)
Theorem grid_axes_pass_their_bounds :
  (exists xs ys,
      axes tenth_degree_box 0.1 = inr (xs, ys)
      /\ xs = [1; 1.1; 1.2000000000000002; 1.3000000000000003]
      /\ ys = [-1; -1.1; -1.2000000000000002; -1.3000000000000003]
      /\ (xMax tenth_degree_box <? last xs 0) = true
      /\ (last ys 0 <? yMin tenth_degree_box) = true)
  /\ (exists xs ys,
         KDEOrigin.arange 1 1.3 0.1 = inr xs
         /\ KDEOrigin.arange (-1) (-1.3) (-0.1) = inr ys
         /\ length xs = 3%nat /\ length ys = 3%nat
         /\ Forall (fun v => v < 1.3)%Q xs
         /\ Forall (fun v => -1.3 < v)%Q ys).
Proof.
  split.
  - do 2 eexists. split; [vm_compute; reflexivity|].
    repeat split; vm_compute; reflexivity.
  - do 2 eexists. split; [vm_compute; reflexivity|].
    split; [vm_compute; reflexivity|].
    split; [reflexivity|]. split; [reflexivity|].
    split; repeat constructor.
Qed.

End Binary64Proofs.

(** * The contour levels up to rounding *)

Module RoundedProofs.

Import KDEOrigin KDEOriginProofs Rounded.
Local Open Scope Q_scope.

(** ** Factors of rounding *)

Lemma near_factor u a b :
  0 <= u <= 1 # 1000 -> near u a b ->
  exists r, (1 - u <= r /\ r <= 1 + u)
            /\ (999 # 1000 <= r /\ r <= 1001 # 1000) /\ b == a * r.
Proof.
  intros Hu (r & L & H & E). exists r. repeat split; try assumption; lra.
Qed.

Lemma float_options_descending :
  StronglySorted (fun u v => v <= u) lvls_options.
Proof.
  unfold lvls_options.
  repeat (constructor; [|repeat (constructor; [unfold Qle; simpl; lia|]); constructor]).
  constructor.
Qed.

Lemma lvls_options_range s :
  In s lvls_options -> 1 # 10 <= s /\ s <= 1.
Proof.
  unfold lvls_options. simpl.
  intros [<-|[<-|[<-|[<-|[<-|[]]]]]]; split; unfold Qle; simpl; lia.
Qed.

Lemma one_tenth_close :
  In (3602879701896397 # 36028797018963968) lvls_options
  /\ 3602879701896397 # 36028797018963968 <= 101 # 1000.
Proof. split; [unfold lvls_options; simpl; tauto|unfold Qle; simpl; lia]. Qed.

(** Three roundings above a quotient that exceeds 6 leave more than 5
    after four more. *)
Lemma quotient_survives K r1 r2 r3 r4 r5 r6 r7 q :
  0 < K ->
  (999 # 1000 <= r1 /\ r1 <= 1001 # 1000) ->
  (999 # 1000 <= r2 /\ r2 <= 1001 # 1000) ->
  (999 # 1000 <= r3 /\ r3 <= 1001 # 1000) ->
  (999 # 1000 <= r4 /\ r4 <= 1001 # 1000) ->
  (999 # 1000 <= r5 /\ r5 <= 1001 # 1000) ->
  (999 # 1000 <= r6 /\ r6 <= 1001 # 1000) ->
  (999 # 1000 <= r7 /\ r7 <= 1001 # 1000) ->
  6 < K * r1 * r2 * r3 ->
  q * (r4 * r5) == K * (r6 * r7) ->
  5 < q.
Proof.
  intros HK H1 H2 H3 H4 H5 H6 H7 T E.
  assert (A12 : r1 * r2 <= 1003 # 1000) by nra.
  assert (P12 : 0 < r1 * r2) by nra.
  assert (A123 : r1 * r2 * r3 <= 1005 # 1000) by nra.
  assert (K6 : 597 # 100 <= K).
  { assert (K * (r1 * r2 * r3) <= K * (1005 # 1000)) by nra. nra. }
  assert (A67 : 998 # 1000 <= r6 * r7) by nra.
  assert (A45 : r4 * r5 <= 1003 # 1000) by nra.
  assert (P45 : 0 < r4 * r5) by nra.
  assert (KL : (597 # 100) * (998 # 1000) <= K * (r6 * r7)) by nra.
  destruct (Qlt_le_dec 5 q) as [L|L]; [assumption|exfalso].
  assert (q * (r4 * r5) <= 5 * (1003 # 1000)).
  { destruct (Qlt_le_dec q 0) as [N|N]; nra. }
  lra.
Qed.

Lemma pow10_inverse e : 10 ^ (- e) * 10 ^ e == 1.
Proof.
  rewrite Qpower_opp. field.
  pose proof (pow10_pos e). lra.
Qed.

Lemma le_prod a b c d : 0 <= a -> a <= b -> 0 <= c -> c <= d -> a * c <= b * d.
Proof. intros. nra. Qed.

Section WithArithmetic.

Variable u : Q.
Context {A : Arithmetic}.
Hypothesis Hu : 0 <= u <= 1 # 1000.
Hypothesis HA : Rounds u A.

Lemma factor a b :
  near u a b ->
  exists r, (1 - u <= r /\ r <= 1 + u)
            /\ (999 # 1000 <= r /\ r <= 1001 # 1000) /\ b == a * r.
Proof. apply near_factor, Hu. Qed.

(** The significand: the maximum over the power of ten, twice rounded. *)
Lemma significand_shape q :
  0 < q ->
  exists K r1 r2,
    K * 10 ^ int_floor_log10 q == q
    /\ K == q * 10 ^ (- int_floor_log10 q)
    /\ 1 <= K * (1 + u) /\ K * (1 - u) < 10
    /\ (1 - u <= r1 /\ r1 <= 1 + u)
    /\ (1 - u <= r2 /\ r2 <= 1 + u)
    /\ fl_mul q (int_pow10 (- int_floor_log10 q)) == K * r1 * r2.
Proof.
  intros Hq. set (e := int_floor_log10 q).
  destruct (int_floor_log10_near HA Hq) as [L1 L2]. fold e in L1, L2.
  rewrite pow10_succ in L2.
  pose proof (pow10_pos e) as Pt. pose proof (pow10_inverse e) as Pi.
  destruct (factor (int_pow10_near HA (- e))) as (r1 & B1 & _ & E1).
  destruct (factor (mul_near HA q (int_pow10 (- e)))) as (r2 & B2 & _ & E2).
  set (t := 10 ^ e) in *. set (ti := 10 ^ (- e)) in *.
  exists (q * ti), r1, r2.
  assert (Pti : 0 < ti) by (apply pow10_pos).
  split; [nra|]. split; [reflexivity|]. split; [nra|]. split; [nra|].
  split; [assumption|]. split; [assumption|].
  rewrite E2, E1. ring.
Qed.

Lemma six_roundings M x a b c d e f :
  0 <= M -> 0 <= x ->
  (0 <= a /\ a <= 1 + u) -> (0 <= b /\ b <= 1 + u) ->
  (0 <= c /\ c <= 1 + u) -> (0 <= d /\ d <= 1 + u) ->
  (0 <= e /\ e <= 1 + u) -> (0 <= f /\ f <= 1 + u) ->
  x <= M * (a * b) ->
  x * (c * d * e * f) <= M * (1 + u) ^ 6.
Proof.
  intros HM Hx [a0 a1] [b0 b1] [c0 c1] [d0 d1] [e0 e1] [f0 f1] H.
  set (w := 1 + u) in *.
  assert (E : w ^ 6 == (w * w) * (w * w * w * w)) by (simpl; ring).
  rewrite E.
  assert (W : 0 <= w) by (unfold w; lra).
  assert (Hab : a * b <= w * w) by (apply le_prod; assumption).
  assert (Hcd : c * d <= w * w) by (apply le_prod; assumption).
  assert (Pcd : 0 <= c * d) by nra.
  assert (Hcde : c * d * e <= w * w * w) by (apply le_prod; assumption).
  assert (Pcde : 0 <= c * d * e) by nra.
  assert (Hcdef : c * d * e * f <= w * w * w * w) by (apply le_prod; assumption).
  assert (Pcdef : 0 <= c * d * e * f) by nra.
  assert (Pab : 0 <= a * b) by nra.
  assert (Hx2 : x <= M * (w * w)) by nra.
  assert (Pw2 : 0 <= M * (w * w)) by nra.
  setoid_replace (M * (w * w * (w * w * w * w)))
    with (M * (w * w) * (w * w * w * w)) by ring.
  apply le_prod; assumption.
Qed.

(** The selection, for a positive maximum. *)
Lemma contour_levels_spec pdfMax :
  0 < pdfMax ->
  exists e sig step lvls,
    contour_levels pdfMax = inr (e, sig, step, lvls)
    /\ e = int_floor_log10 pdfMax
    /\ (10 ^ e <= pdfMax * (1 + u) /\ pdfMax * (1 - u) < 10 ^ (e + 1))
    /\ sig = fl_mul pdfMax (int_pow10 (- e))
    /\ (exists r1 r2,
          (1 - u <= r1 /\ r1 <= 1 + u) /\ (1 - u <= r2 /\ r2 <= 1 + u)
          /\ sig == pdfMax * 10 ^ (- e) * r1 * r2)
    /\ In step lvls_options
    /\ 6 < fl_div sig step
    /\ (forall s, In s lvls_options -> 6 < fl_div sig s -> s <= step)
    /\ (6 <= length lvls)%nat
    /\ Forall (fun l => 0 <= l /\ l <= pdfMax * (1 + u) ^ 6) lvls.
Proof.
  intros Hq. unfold contour_levels.
  rewrite Qeq_bool_false by lra. rewrite Qlt_bool_false by lra.
  destruct (significand_shape Hq) as (K & r1 & r2 & EK & EK' & K1 & K2 & B1 & B2 & Es).
  set (e := int_floor_log10 pdfMax) in *.
  set (sig := fl_mul pdfMax (int_pow10 (- e))) in *.
  pose proof (pow10_pos e) as Pt. set (t := 10 ^ e) in *.
  assert (HK : 999 # 1000 <= K) by nra.
  assert (HK' : K <= 1002 # 100) by nra.
  assert (P12 : 997 # 1000 <= r1 * r2) by nra.
  assert (Q12 : r1 * r2 <= 1003 # 1000) by nra.
  assert (Ss : 99 # 100 <= sig) by (rewrite Es; nra).
  destruct (find _ lvls_options) as [step|] eqn:F.
  - destruct (find_in_descending _ float_options_descending F) as (I & T & Lg).
    apply Qlt_bool_iff in T. unfold min_lvls in T.
    destruct (lvls_options_range I) as [S0 S1].
    destruct (factor (float_pow10_near HA e)) as (r4 & _ & B4 & E4). fold t in E4.
    destruct (factor (mul_near HA step (float_pow10 e))) as (r5 & _ & B5 & E5).
    set (D := fl_mul step (float_pow10 e)) in *.
    assert (ED : D == step * t * (r4 * r5)) by (rewrite E5, E4; ring).
    assert (P45 : 0 < r4 * r5) by nra.
    assert (Pst : 0 < step * t) by nra.
    assert (PD : 0 < D) by (rewrite ED; nra).
    unfold arange. rewrite Qeq_bool_false by lra.
    assert (Ns : ~ step == 0) by lra.
    assert (ND : ~ D == 0) by lra.
    destruct (factor (div_near HA sig Ns)) as (r3 & _ & B3 & E3).
    destruct (factor (sub_near HA pdfMax 0)) as (r6 & C6 & B6 & E6).
    destruct (factor (div_near HA (fl_sub pdfMax 0) ND))
      as (r7 & C7 & B7 & E7).
    set (q := fl_div (fl_sub pdfMax 0) D) in *.
    assert (EqD : q * D == pdfMax * (r6 * r7)).
    { rewrite E7, E6. field. lra. }
    assert (Q5 : 5 < q).
    { apply quotient_survives with (K := K / step) (r1 := r1) (r2 := r2)
        (r3 := r3) (r4 := r4) (r5 := r5) (r6 := r6) (r7 := r7);
        try assumption; try nra.
      - apply Qlt_shift_div_l; lra.
      - rewrite E3, Es in T.
        assert (X : K * r1 * r2 / step * r3 == K / step * r1 * r2 * r3)
          by (field; lra).
        now rewrite <- X.
      - assert (X : q * (r4 * r5) * (step * t) == q * D) by (rewrite ED; ring).
        assert (Y : K / step * (r6 * r7) * (step * t) == pdfMax * (r6 * r7)).
        { rewrite <- EK. fold t. field. lra. }
        assert (Z : 0 < step * t) by nra.
        nra. }
    do 4 eexists. split; [reflexivity|]. split; [reflexivity|].
    split; [apply (int_floor_log10_near HA Hq)|].
    split; [reflexivity|].
    split; [exists r1, r2; split; [assumption|]; split; [assumption|];
            rewrite Es, EK'; reflexivity|].
    split; [assumption|]. split; [assumption|].
    split; [intros s Is Ts; apply Lg; [assumption|now apply Qlt_bool_iff]|].
    pose proof (Qle_ceiling q) as Hc.
    assert (Hn : (6 <= Qceiling q)%Z).
    { assert (X : 5 < inject_Z (Qceiling q)) by lra.
      rewrite <- (Zlt_Qlt 5) in X. lia. }
    split; [rewrite length_map, length_seq; lia|].
    apply Forall_forall. intros l Hl. apply in_map_iff in Hl.
    destruct Hl as [i [<- Hi]]. apply in_seq in Hi.
    assert (Hiq : inject_Z (Z.of_nat i) < q).
    { apply Qle_lt_trans with (inject_Z (Qceiling q - 1)).
      - rewrite <- Zle_Qle. lia.
      - apply Qceiling_lt. }
    assert (Hi0 : 0 <= inject_Z (Z.of_nat i)) by (rewrite <- (Zle_Qle 0); lia).
    assert (M6 : 0 <= pdfMax * (1 + u) ^ 6).
    { apply Qmult_le_0_compat; [lra|]. apply Qpower_0_le. lra. }
    destruct (factor (add_near HA 0 D)) as (r8 & C8 & B8 & E8).
    set (next := fl_add 0 D) in *.
    destruct (factor (sub_near HA next 0)) as (r9 & C9 & B9 & E9).
    set (delta := fl_sub next 0) in *.
    assert (One : 0 <= 1 /\ 1 <= 1 + u) by lra.
    destruct i as [|[|i]].
    + split; [lra|assumption].
    + assert (X : next == D * (r8 * 1 * 1 * 1)) by (rewrite E8; ring).
      rewrite X. split; [nra|].
      apply six_roundings with (a := r6) (b := r7); try lra.
      nra.
    + set (k := inject_Z (Z.of_nat (S (S i)))) in *.
      destruct (factor (mul_near HA k delta)) as (r10 & C10 & B10 & E10).
      destruct (factor (add_near HA 0 (fl_mul k delta))) as (r11 & C11 & B11 & E11).
      assert (X : fl_add 0 (fl_mul k delta) == k * D * (r8 * r9 * r10 * r11)).
      { rewrite E11, E10, E9, E8. ring. }
      rewrite X.
      assert (P89 : 0 <= r8 * r9) by nra.
      assert (P8910 : 0 <= r8 * r9 * r10) by nra.
      assert (P891011 : 0 <= r8 * r9 * r10 * r11) by nra.
      assert (PkD : 0 <= k * D) by nra.
      split; [nra|].
      apply six_roundings with (a := r6) (b := r7); try lra.
      nra.
  - exfalso. destruct one_tenth_close as [I B].
    pose proof (find_none _ _ F _ I) as N. cbv beta in N.
    set (o := 3602879701896397 # 36028797018963968) in *.
    assert (Po : 1 # 10 <= o) by (apply (lvls_options_range I)).
    assert (No : ~ o == 0) by lra.
    destruct (factor (div_near HA sig No)) as (r3 & _ & B3 & E3).
    assert (T : Qlt_bool min_lvls (fl_div sig o) = true).
    { apply Qlt_bool_iff. unfold min_lvls. rewrite E3.
      assert (X : 98 # 10 <= sig / o).
      { apply Qle_shift_div_l; lra. }
      nra. }
    congruence.
Qed.

Lemma exponent_of_37 : int_floor_log10 37 = 1%Z.
Proof.
  destruct (int_floor_log10_near HA (q := 37) eq_refl) as [L1 L2].
  set (e := int_floor_log10 37) in *.
  destruct (Z_le_gt_dec e 0) as [N|N].
  - exfalso.
    assert (X : 10 ^ (e + 1) <= 10 ^ 1)
      by (apply Qpower_le_compat_l; [lia|discriminate]).
    change (10 ^ 1) with 10 in X. lra.
  - destruct (Z_le_gt_dec 2 e) as [P|P]; [exfalso|lia].
    assert (X : 10 ^ 2 <= 10 ^ e)
      by (apply Qpower_le_compat_l; [lia|discriminate]).
    change (10 ^ 2) with (10 * 10) in X. lra.
Qed.

(** Claim C9.  The arithmetic is that of floats: every operation gives
    its exact result times a factor between [1 - u] and [1 + u], the
    candidates are the floats that [0.2] and [0.1] denote, and the
    exponent is the one the logarithm of the library gives, which
    brackets the maximum up to such a factor.  For every positive maximum
    the levels are then chosen without an exception: the significand is
    the rounded product of the maximum and the power of ten, the step is
    the largest candidate whose rounded quotient exceeds 6, at least 6
    levels are drawn, and they lie from 0 to the maximum, up to the six
    roundings on the way.  For the maximum 37 the exponent is 1 and the
    step 0.5, whatever the roundings. *)
Theorem contour_step_selection :
  (forall pdfMax,
      0 < pdfMax ->
      exists e sig step lvls,
        contour_levels pdfMax = inr (e, sig, step, lvls)
        /\ e = int_floor_log10 pdfMax
        /\ (10 ^ e <= pdfMax * (1 + u) /\ pdfMax * (1 - u) < 10 ^ (e + 1))
        /\ sig = fl_mul pdfMax (int_pow10 (- e))
        /\ (exists r1 r2,
              (1 - u <= r1 /\ r1 <= 1 + u) /\ (1 - u <= r2 /\ r2 <= 1 + u)
              /\ sig == pdfMax * 10 ^ (- e) * r1 * r2)
        /\ In step lvls_options
        /\ 6 < fl_div sig step
        /\ (forall s, In s lvls_options -> 6 < fl_div sig s -> s <= step)
        /\ (6 <= length lvls)%nat
        /\ Forall (fun l => 0 <= l /\ l <= pdfMax * (1 + u) ^ 6) lvls)
  /\ (exists sig lvls,
         contour_levels 37 = inr (1%Z, sig, 1 # 2, lvls)
         /\ (6 <= length lvls)%nat).
Proof.
  split; [exact contour_levels_spec|].
  destruct (@contour_levels_spec 37 eq_refl)
    as (e & sig & step & lvls & E & He & _ & Hs & (r1 & r2 & B1 & B2 & Es)
        & I & T & Lg & Ln & _).
  rewrite exponent_of_37 in He. subst e.
  assert (P : 10 ^ (- (1)) == 1 # 10) by reflexivity. rewrite P in Es.
  assert (R12 : 997 # 1000 <= r1 * r2 /\ r1 * r2 <= 1003 # 1000) by nra.
  assert (S37 : 368 # 100 <= sig /\ sig <= 372 # 100) by (rewrite Es; nra).
  assert (N1 : ~ 1 == 0) by discriminate.
  assert (N2 : ~ 1 # 2 == 0) by discriminate.
  destruct (factor (div_near HA sig N1)) as (r3 & _ & B3 & E3).
  destruct (factor (div_near HA sig N2)) as (r4 & _ & B4 & E4).
  assert (T1 : fl_div sig 1 <= 6).
  { rewrite E3. assert (X : sig / 1 == sig) by (field; discriminate). nra. }
  assert (T2 : 6 < fl_div sig (1 # 2)).
  { rewrite E4. assert (X : sig / (1 # 2) == 2 * sig) by (field; discriminate).
    nra. }
  assert (G : 1 # 2 <= step).
  { apply Lg; [unfold lvls_options; simpl; tauto|assumption]. }
  assert (Est : step = 1 # 2).
  { unfold lvls_options in I. simpl in I.
    destruct I as [<-|[<-|[<-|[<-|[<-|[]]]]]];
      try reflexivity; exfalso; try lra; revert G; unfold Qle; simpl; lia. }
  subst step. exists sig, lvls. split; assumption.
Qed.

End WithArithmetic.

(** ** Arithmetics that round within a unit *)

Lemma exact_factor u a : 0 <= u -> near u a a.
Proof. intros H. exists 1. repeat split; lra. Qed.

Lemma products_up_rounds : Rounds ulp products_up.
Proof.
  assert (U : 0 <= ulp) by discriminate.
  constructor; cbn.
  - intros. now apply exact_factor.
  - intros. now apply exact_factor.
  - intros a b. exists (1 + ulp). repeat split; lra.
  - intros. now apply exact_factor.
  - intros. now apply exact_factor.
  - intros. now apply exact_factor.
  - intros q Hq. destruct (floor_log10_spec Hq) as [L1 L2].
    unfold ulp in *. split; nra.
Qed.

(** With products rounded up, as binary64 rounds [12 * 0.1], the quotient
    by the float of [0.2] exceeds 6: the step for the maximum 12 is that
    float and six levels are drawn. *)
Lemma contour_step_selection_witness :
  (exists e sig step lvls,
      @contour_levels products_up 12 = inr (e, sig, step, lvls)
      /\ e = @int_floor_log10 products_up 12
      /\ (10 ^ e <= 12 * (1 + ulp) /\ 12 * (1 - ulp) < 10 ^ (e + 1))
      /\ sig = @fl_mul products_up 12 (@int_pow10 products_up (- e))
      /\ (exists r1 r2,
            (1 - ulp <= r1 /\ r1 <= 1 + ulp) /\ (1 - ulp <= r2 /\ r2 <= 1 + ulp)
            /\ sig == 12 * 10 ^ (- e) * r1 * r2)
      /\ In step lvls_options
      /\ 6 < @fl_div products_up sig step
      /\ (forall s, In s lvls_options -> 6 < @fl_div products_up sig s -> s <= step)
      /\ (6 <= length lvls)%nat
      /\ Forall (fun l => 0 <= l /\ l <= 12 * (1 + ulp) ^ 6) lvls)
  /\ (exists sig lvls,
         @contour_levels products_up 12
         = inr (1%Z, sig, 3602879701896397 # 18014398509481984, lvls)
         /\ length lvls = 6%nat).
Proof.
  split.
  - apply (proj1 (@contour_step_selection ulp products_up
                    ltac:(split; discriminate) products_up_rounds) 12).
    reflexivity.
  - do 2 eexists. split; [vm_compute; reflexivity|reflexivity].
Defined.


End RoundedProofs.

(** * Further properties of trackSize.py *)

Module TrackSizeExtras.

Import Py TrackSize TrackSizeProofs.
Local Open Scope R_scope.

(** ** [rmax] on every input *)

Lemma rmax_mismatch ds ls eps a b c d rest log :
  length ds <> length ls ->
  rmax (Array ds) (Array ls) eps (a :: b :: c :: d :: rest) log
  = (inl AssertionError, log).
Proof.
  intros H. apply Nat.eqb_neq in H.
  unfold rmax, bind, assert, raise, ret. cbn [length Nat.ltb Nat.leb].
  now rewrite H.
Qed.

Lemma shapes_agreeb_iff dp lat : shapes_agreeb dp lat = true <-> shapes_agree dp lat.
Proof.
  destruct dp, lat; simpl; try tauto. apply Nat.eqb_eq.
Qed.

Lemma rmax_long dp lat eps a b c d rest log :
  rmax dp lat eps (a :: b :: c :: d :: rest) log
  = (rmax_outcome dp lat eps (a :: b :: c :: d :: rest), log).
Proof.
  unfold rmax_outcome. destruct (shapes_agreeb dp lat) eqn:E.
  - apply shapes_agreeb_iff in E. now rewrite rmax_eval.
  - destruct dp as [u|ds], lat as [v|ls]; try discriminate.
    simpl in E. apply Nat.eqb_neq in E. now apply rmax_mismatch.
Qed.

Lemma long_coeffs (coeffs : list R) :
  (length coeffs <? 4)%nat = false ->
  exists a b c d rest, coeffs = a :: b :: c :: d :: rest.
Proof.
  destruct coeffs as [|a [|b [|c [|d rest]]]]; try discriminate.
  intros _. now exists a, b, c, d, rest.
Qed.

Lemma rmax_outcome_short dp lat eps coeffs :
  (length coeffs <? 4)%nat = true ->
  rmax_outcome dp lat eps coeffs = rmax_outcome dp lat eps default_coeffs.
Proof.
  intros H. unfold rmax_outcome, coeff, effective_coeffs. rewrite H.
  reflexivity.
Qed.

(** [rmax] in closed form: the outcome and the log it leaves. *)
Lemma rmax_closed_form dp lat eps coeffs log :
  rmax dp lat eps coeffs log
  = (rmax_outcome dp lat eps coeffs, log ++ warnings_for coeffs).
Proof.
  unfold warnings_for. destruct (length coeffs <? 4)%nat eqn:E.
  - rewrite rmax_short by (now apply Nat.ltb_lt).
    unfold default_coeffs at 1. rewrite rmax_long.
    now rewrite rmax_outcome_short with (coeffs := coeffs).
  - destruct (@long_coeffs coeffs E) as (a & b & c & d & rest & ->).
    now rewrite rmax_long, app_nil_r.
Qed.

Lemma combine_map_r {A B C} (f : B -> C) (l : list A) : forall l',
  combine l (map f l') = map (fun p => (fst p, f (snd p))) (combine l l').
Proof.
  induction l as [|u l IH]; intros [|v l']; simpl; try reflexivity.
  now rewrite IH.
Qed.

(** ** What [rmax] returns *)


(** Property X2.  [rmax] leaves the log as it found it when it is given
    four coefficients or more, and with its two warnings added when it is
    given fewer, also when it goes on to raise. *)
Theorem rmax_log_effect dp lat eps coeffs log :
  snd (rmax dp lat eps coeffs log)
  = if (length coeffs <? 4)%nat then log ++ short_warnings else log.
Proof.
  rewrite rmax_closed_form. cbn [snd]. unfold warnings_for.
  destruct (length coeffs <? 4)%nat; [reflexivity|apply app_nil_r].
Qed.

(** Property X3.  Coefficients after the fourth are not used: a longer
    list gives the outcome of its first four. *)
Theorem rmax_ignores_further_coeffs dp lat eps a b c d rest log :
  rmax dp lat eps (a :: b :: c :: d :: rest) log
  = rmax dp lat eps [a; b; c; d] log.
Proof. now rewrite !rmax_long. Qed.

(** Property X4.  The variate [eps] scales the result: over the reals,
    the outcome for [eps] is the outcome for the variate 0 with every entry
    multiplied by [exp eps], and the same exception if that raises. *)
Theorem rmax_eps_scales dp lat eps coeffs log :
  fst (rmax dp lat eps coeffs log)
  = match fst (rmax dp lat 0 coeffs log) with
    | inr v => inr (vmap (fun r => exp eps * r) v)
    | inl e => inl e
    end.
Proof.
  rewrite !rmax_closed_form. cbn [fst]. unfold rmax_outcome.
  destruct (shapes_agreeb dp lat); [|reflexivity]. f_equal.
  assert (E : forall a b c d u v,
             exp (ln_rmw a b c d eps u v) = exp eps * exp (ln_rmw a b c d 0 u v)).
  { intros. rewrite <- exp_plus. f_equal. unfold ln_rmw. ring. }
  destruct dp as [u|us], lat as [w|ws]; cbn [elementwise vmap];
    rewrite ?map_map; f_equal; try apply E; apply map_ext; intros; apply E.
Qed.

(** Property X5.  The sign of the latitude does not matter: the latitudes
    with their signs changed give the same outcome and the same log. *)
Theorem rmax_latitude_sign dp lat eps coeffs log :
  rmax dp (vmap Ropp lat) eps coeffs log = rmax dp lat eps coeffs log.
Proof.
  rewrite !rmax_closed_form. f_equal. unfold rmax_outcome.
  assert (S : shapes_agreeb dp (vmap Ropp lat) = shapes_agreeb dp lat).
  { destruct dp, lat; simpl; try reflexivity. now rewrite length_map. }
  rewrite S. destruct (shapes_agreeb dp lat); [|reflexivity]. f_equal.
  assert (E : forall a b c d u v,
             exp (ln_rmw a b c d eps u (- v)) = exp (ln_rmw a b c d eps u v)).
  { intros. f_equal. unfold ln_rmw. ring. }
  destruct dp as [u|us], lat as [w|ws]; cbn [elementwise vmap];
    rewrite ?combine_map_r, ?map_map; f_equal; try apply E;
    apply map_ext; intros; apply E.
Qed.

(** ** The fit *)

(** Property X6.  The fit does not depend on the signs of the latitudes:
    whatever the solver, the latitudes with their signs changed give the
    same outcome. *)
Theorem fitRmax_latitude_sign (S : Solvers) (rmw dp lat : list R) :
  fitRmax rmw dp (map Ropp lat) = fitRmax rmw dp lat.
Proof.
  unfold fitRmax. rewrite length_map.
  replace (column_stack dp (map Ropp lat)) with (column_stack dp lat);
    [reflexivity|].
  unfold column_stack. rewrite combine_map_r, map_map.
  apply map_ext. intros [u v]. cbn [fst snd].
  replace (- v * - v) with (v * v) by ring. reflexivity.
Qed.

End TrackSizeExtras.

(** * Further properties of KDEOrigin.py *)

Module KDEOriginExtras.

Import Py KDEOrigin KDEOriginProofs.
Local Open Scope Q_scope.

Section WithUtilities.

Context {U : Utilities}.

(** ** Calls that raise *)

(** Property X7.  With a positive bandwidth in effect and a kernel name
    for which KPDF has no routine, [generateKDE] raises AttributeError for
    the routine MPDF followed by the name, having changed nothing but the
    bandwidth it was given. *)
Theorem unknown_kernel_is_refused bw_arg save self :
  0 < effective_bw bw_arg self ->
  KPDF_getattr ("MPDF" ++ kdeType self) = None ->
  generateKDE bw_arg save self
  = (inl (AttributeError ("MPDF" ++ kdeType self)), override bw_arg self).
Proof.
  intros Hb K. destruct (override_frame bw_arg self) as (_ & _ & Ek & _).
  rewrite generateKDE_override, generateKDE_steps.
  unfold _generatePDF, bind, get, raise. unfold effective_bw in Hb.
  rewrite Qle_bool_false by assumption. cbv beta iota.
  now rewrite Ek, K.
Qed.

(** Property X8.  A call of [generateKDE] without [save] that raises
    leaves the object as it was, but for the bandwidth it was given: no
    PDF is assigned and none is replaced. *)
Theorem failed_generateKDE_changes_only_bw bw_arg self e self' :
  generateKDE bw_arg false self = (inl e, self') ->
  self' = override bw_arg self /\ pdf self' = pdf self /\ cz self' = cz self.
Proof.
  rewrite generateKDE_override, generateKDE_steps.
  destruct (override_keeps bw_arg self) as (_ & _ & _ & _ & Ep & Ec).
  destruct (fst _) as [e1|raw].
  - intros H; injection H as _ <-. now rewrite Ep, Ec.
  - destruct (reshape _ _) as [e1|pdf2].
    + intros H; injection H as _ <-. now rewrite Ep, Ec.
    + cbv zeta. discriminate.
Qed.

(** ** Attributes no call changes *)

Ltac preserved :=
  unfold generateKDE, generateCdf;
  repeat first
    [ apply _generatePDF_preserves
    | apply preserves_ret | apply preserves_raise | apply preserves_lift
    | apply preserves_get | apply preserves_getattr
    | apply preserves_modify; intros; reflexivity
    | apply preserves_bind; [|intros]
    | match goal with
      | |- preserves _ (match ?t with _ => _ end) => destruct t
      end ].

(** Property X9.  No call of [generateKDE] changes the coordinate
    sequences, the observations, the kernel name, the step, the paths or
    the CDF; no call of [generateCdf] changes any of these but the CDF, nor
    the PDF or the bandwidth.  This holds for calls that raise as well. *)
Theorem calls_keep_the_grid_and_the_data bw_arg save self :
  let s1 := snd (generateKDE bw_arg save self) in
  let s2 := snd (generateCdf save self) in
  (x s1 = x self /\ y s1 = y self /\ lonLat s1 = lonLat self
   /\ kdeType s1 = kdeType self /\ kdeStep s1 = kdeStep self
   /\ processPath s1 = processPath self /\ outputPath s1 = outputPath self
   /\ cz s1 = cz self)
  /\ (x s2 = x self /\ y s2 = y self /\ lonLat s2 = lonLat self
      /\ kdeType s2 = kdeType self /\ kdeStep s2 = kdeStep self
      /\ processPath s2 = processPath self /\ outputPath s2 = outputPath self
      /\ pdf s2 = pdf self /\ bw s2 = bw self).
Proof.
  intros s1 s2. unfold s1, s2. rewrite generateKDE_override.
  destruct (override_frame bw_arg self) as (Ex & Ey & Ek & El).
  destruct (override_keeps bw_arg self) as (_ & Es & Eo & Ep & _ & Ec).
  split.
  - rewrite <- Ex, <- Ey, <- Ek, <- El, <- Es, <- Eo, <- Ep, <- Ec.
    repeat split;
      match goal with
      | |- ?f (snd (generateKDE None save ?s)) = _ =>
          let H := fresh in
          assert (H : preserves f (generateKDE None save)) by preserved;
          apply H
      end.
  - repeat split;
      match goal with
      | |- ?f (snd (generateCdf save ?s)) = _ =>
          let H := fresh in
          assert (H : preserves f (generateCdf save)) by preserved;
          apply H
      end.
Qed.

(** ** Calls in sequence *)

(** Property X12.  After a call of [generateKDE] that returned a grid,
    [generateCdf] returns the cumulative grid of that very grid over the
    object's coordinate sequences, and stores it. *)
Theorem generateCdf_after_generateKDE bw_arg self xs ys p s1 :
  generateKDE bw_arg false self = (inr (Some (xs, ys, p)), s1) ->
  generateCdf false s1
  = (inr (Some (cdf2d (x self) (y self) p)),
     set_cz (cdf2d (x self) (y self) p) s1)
  /\ pdf s1 = Some p.
Proof.
  rewrite generateKDE_override, generateKDE_steps.
  destruct (override_frame bw_arg self) as (Ex & Ey & _ & _).
  destruct (fst _) as [e1|raw]; [discriminate|].
  destruct (reshape _ _) as [e1|pdf2]; [discriminate|]. cbv zeta.
  intros H; injection H as _ _ <- <-. rewrite <- Ex, <- Ey.
  split; reflexivity.
Qed.

(** Property X13.  A call of [generateKDE] that returned can be repeated:
    the same call, and the call without a bandwidth, return the same
    grid again and leave the object as the first call left it. *)
Theorem generateKDE_can_be_repeated bw_arg self out s1 :
  generateKDE bw_arg false self = (inr out, s1) ->
  generateKDE bw_arg false s1 = (inr out, s1)
  /\ generateKDE None false s1 = (inr out, s1).
Proof.
  rewrite (generateKDE_override bw_arg false self), generateKDE_steps.
  set (s0 := override bw_arg self).
  destruct (fst _) as [e1|raw] eqn:E; [discriminate|].
  destruct (reshape _ _) as [e1|pdf2] eqn:R; [discriminate|]. cbv zeta.
  intros H; injection H as <- <-.
  assert (N : generateKDE None false (set_pdf (transpose (length (x s0)) pdf2) s0)
              = (inr (Some (x s0, y s0, transpose (length (x s0)) pdf2)),
                 set_pdf (transpose (length (x s0)) pdf2) s0)).
  { rewrite generateKDE_steps. cbn [x y bw set_pdf].
    rewrite _generatePDF_ignores_pdf, E, R. reflexivity. }
  split; [|assumption].
  rewrite generateKDE_override.
  replace (override bw_arg (set_pdf (transpose (length (x s0)) pdf2) s0))
    with (set_pdf (transpose (length (x s0)) pdf2) s0); [assumption|].
  unfold s0, override. destruct bw_arg as [b|]; [|reflexivity].
  destruct (truthy b) eqn:T; rewrite ?T; reflexivity.
Qed.

(** ** Saving *)

(** Property X14.  An object built from observations of the caller has
    neither of the two paths.  On an object without [processPath] a call
    of [generateKDE] with [save] always raises; where the call without
    [save] returns, the call with [save] raises AttributeError for
    [processPath] and leaves the object with the same PDF stored.
    [generateCdf] with [save] likewise stores the CDF and then raises. *)
Theorem save_needs_the_configured_paths :
  (forall cf kt gl st ll self,
      __init__ cf kt gl st (Some ll) = inr self ->
      processPath self = None /\ outputPath self = None)
  /\ (forall bw_arg self,
         processPath self = None ->
         (exists e s1, generateKDE bw_arg true self = (inl e, s1))
         /\ (forall out s1,
                generateKDE bw_arg false self = (inr out, s1) ->
                generateKDE bw_arg true self
                = (inl (AttributeError "processPath"), s1)))
  /\ (forall self p,
         processPath self = None -> pdf self = Some p ->
         generateCdf true self
         = (inl (AttributeError "processPath"),
            set_cz (cdf2d (x self) (y self) p) self)).
Proof.
  split; [|split].
  - intros cf kt gl st ll self. unfold __init__.
    destruct (arange _ _ st); [discriminate|].
    destruct (arange _ _ (- st)); [discriminate|].
    intros H; injection H as <-. split; reflexivity.
  - intros bw_arg self P.
    rewrite !(generateKDE_override bw_arg), !generateKDE_steps.
    destruct (override_keeps bw_arg self) as (_ & _ & _ & Ep & _ & _).
    rewrite <- Ep in P.
    assert (S : forall pdf2, save_outcome pdf2 (override bw_arg self)
                             = inl (AttributeError "processPath")).
    { intros. unfold save_outcome. now rewrite P. }
    destruct (fst _) as [e1|raw].
    + split; [now eauto|discriminate].
    + destruct (reshape _ _) as [e1|pdf2]; [split; [now eauto|discriminate]|].
      cbv zeta. rewrite S. split; [now eauto|].
      intros out s1 H; injection H as _ <-. reflexivity.
  - intros self p P E.
    unfold generateCdf, getattr, bind, get, ret, raise, modify.
    rewrite E. cbn [processPath set_cz]. now rewrite P.
Qed.

(** ** Grids without cells *)

Lemma arange_empty start stop step :
  0 < step -> stop <= start -> arange start stop step = inr [].
Proof.
  intros Hs H. rewrite arange_eq by lra.
  replace (arange_len start stop step) with 0%nat; [reflexivity|].
  unfold arange_len.
  assert (L : (stop - start) / step <= 0).
  { apply Qle_shift_div_r; [assumption|]. lra. }
  apply Qceiling_resp_le in L. change 0 with (inject_Z 0) in L.
  rewrite Qceiling_Z in L. lia.
Qed.

Lemma no_points_without_x ys : MPDF2DGrid2Array [] ys = [].
Proof. unfold MPDF2DGrid2Array. induction ys; simpl; auto. Qed.

(** Property X11.  When [xMax] is not above [xMin] the object is built
    with an empty x-sequence, and every call of [generateKDE] that gets as
    far as the kernel routine's result then raises ZeroDivisionError,
    without assigning a PDF. *)
Theorem empty_x_sequence_divides_by_zero cf kt gl st ll :
  0 < st -> xMax gl <= xMin gl ->
  exists self,
    __init__ cf kt gl st ll = inr self
    /\ x self = []
    /\ forall bw_arg save kdeMethod raw,
         0 < effective_bw bw_arg self ->
         KPDF_getattr ("MPDF" ++ kt) = Some kdeMethod ->
         kdeMethod (lonLat self) [] (effective_bw bw_arg self) = inr raw ->
         generateKDE bw_arg save self
         = (inl ZeroDivisionError, override bw_arg self).
Proof.
  intros Hs Hx. unfold __init__.
  rewrite (arange_empty Hs Hx), arange_eq by lra.
  eexists. split; [reflexivity|]. split; [reflexivity|].
  intros bw_arg save kdeMethod raw Hb K R.
  match goal with |- generateKDE _ _ ?s = _ => set (self := s) in * end.
  destruct (override_frame bw_arg self) as (Ex & Ey & Ek & El).
  rewrite generateKDE_override, generateKDE_steps. rewrite Ex.
  change (x self) with (@nil Q). rewrite no_points_without_x.
  rewrite _generatePDF_runs with (kdeMethod := kdeMethod);
    [|exact Hb|now rewrite Ek].
  cbn [fst]. rewrite El. unfold effective_bw in R. rewrite R. reflexivity.
Qed.

(** ** The script *)

Lemma fold_max_spec : forall (l : list Q) (v : Q),
  let m := fold_left (fun m w => if Qlt_bool m w then w else m) l v in
  v <= m /\ Forall (fun w => w <= m) l.
Proof.
  induction l as [|w l IH]; intros v; simpl.
  - split; [lra|constructor].
  - destruct (Qlt_bool v w) eqn:E.
    + apply Qlt_bool_iff in E. destruct (IH w) as [A B].
      split; [lra|]. now constructor.
    + assert (w <= v).
      { destruct (Qlt_le_dec v w) as [L|L]; [|assumption].
        apply Qlt_bool_iff in L. congruence. }
      destruct (IH v) as [A B]. split; [assumption|].
      constructor; [lra|assumption].
Qed.

Lemma Qsum_nonpos l : Forall (fun w => w <= 0) l -> Qsum l <= 0.
Proof. induction 1; simpl; lra. Qed.

Lemma np_max_positive l :
  0 < Qsum l -> exists m, np_max l = inr m /\ 0 < m.
Proof.
  destruct l as [|v l]; simpl; [intros H; lra|]. intros H.
  eexists. split; [reflexivity|].
  destruct (fold_max_spec l v) as [A B].
  set (m := fold_left _ l v) in *.
  destruct (Qlt_le_dec 0 m) as [L|L]; [assumption|]. exfalso.
  assert (Qsum (v :: l) <= 0).
  { apply Qsum_nonpos. constructor; [lra|].
    revert B. apply Forall_impl. intros; lra. }
  simpl in *. lra.
Qed.

Lemma contour_levels_returns q : 0 < q -> exists r, contour_levels q = inr r.
Proof.
  intros Hq. unfold contour_levels.
  rewrite Qeq_bool_false by lra. rewrite Qlt_bool_false by lra.
  destruct (significand_range Hq) as [S1 S2].
  set (sig := q * 10 ^ (- floor_log10 q)) in *.
  destruct (find _ lvls_options) as [step|] eqn:F.
  - destruct (find_in_descending _ lvls_options_descending F) as [A _].
    pose proof (lvls_options_pos A). pose proof (pow10_pos (floor_log10 q)).
    rewrite arange_eq by nra. now eauto.
  - exfalso. pose proof (find_none _ _ F 0.1) as N.
    assert (B : Qlt_bool min_lvls (sig / 0.1) = true).
    { apply Qlt_bool_iff. unfold min_lvls.
      apply Qlt_shift_div_l; [reflexivity|]. lra. }
    rewrite N in B; [discriminate|]. unfold lvls_options; simpl; tauto.
Qed.

Lemma init_from_configuration cf kt gl st self :
  __init__ cf kt gl st None = inr self ->
  kdeType self = kt /\ pdf self = None
  /\ (exists d, processPath self = Some d) /\ (exists d, outputPath self = Some d).
Proof.
  unfold __init__.
  destruct (arange _ _ st); [discriminate|].
  destruct (arange _ _ (- st)); [discriminate|].
  intros H; injection H as <-. simpl. repeat split; eauto.
Qed.

(** Property X15.  The script builds its object from the configuration,
    so both paths are there.  When the optimum bandwidth is positive and
    the kernel routine returns one value for each grid point, none
    negative and with a positive total, neither of the script's two calls
    raises in what it computes itself, the choice of contour levels
    included (the writers and plotters are outside the model), and the
    object is left with the normalised PDF and its CDF stored. *)
Theorem main_stores_pdf_and_cdf cf kt gl kde kdeMethod raw :
  __init__ cf kt gl 0.1 None = inr kde ->
  0 < bw kde ->
  KPDF_getattr ("MPDF" ++ kt) = Some kdeMethod ->
  kdeMethod (lonLat kde) (MPDF2DGrid2Array (x kde) (y kde)) (bw kde) = inr raw ->
  length raw = length (MPDF2DGrid2Array (x kde) (y kde)) ->
  Forall nonneg raw -> 0 < Qsum raw ->
  exists p,
    main cf kt gl = inr (set_cz (cdf2d (x kde) (y kde) p) (set_pdf p kde))
    /\ Forall (Forall nonneg) p /\ Qsum (concat p) == 1.
Proof.
  intros I Hb K R L N S.
  destruct (init_from_configuration _ _ _ _ I) as (Ek & _ & [d1 P] & [d2 O]).
  rewrite grid_points_length in L.
  set (pdf1 := map (fun v => v / Qsum raw) raw).
  assert (L1 : length pdf1 = (length (y kde) * length (x kde))%nat).
  { unfold pdf1. now rewrite length_map. }
  assert (Hx : (0 < length (x kde))%nat).
  { apply Qsum_pos_nonempty in S. rewrite L in S.
    destruct (length (x kde)); lia. }
  assert (S1 : Qsum pdf1 == 1).
  { unfold pdf1. rewrite Qsum_scaled. field. lra. }
  set (pdf2 := chunks (length (y kde)) (length (x kde)) pdf1).
  exists (transpose (length (x kde)) pdf2).
  split; [|split].
  - unfold main. rewrite I, generateKDE_steps.
    rewrite _generatePDF_runs with (kdeMethod := kdeMethod);
      [|assumption|now rewrite Ek].
    cbn [fst]. rewrite R. fold pdf1.
    rewrite reshape_exact with (rows := length (y kde)) by assumption.
    fold pdf2. cbv zeta.
    assert (SO : save_outcome pdf2 kde = inr None).
    { unfold save_outcome. rewrite P, O. unfold pdf2.
      rewrite concat_chunks by assumption.
      destruct (@np_max_positive pdf1) as [m [-> Hm]]; [lra|].
      destruct (contour_levels_returns Hm) as [r ->]. reflexivity. }
    rewrite SO.
    unfold generateCdf, getattr, bind, get, ret, raise, modify.
    cbn [pdf processPath set_pdf set_cz x y]. rewrite P. reflexivity.
  - apply Forall_transpose. apply Forall_concat_iff. unfold pdf2.
    rewrite concat_chunks by assumption. unfold pdf1.
    apply Forall_map. revert N. apply Forall_impl. intros v Hv. unfold nonneg in *.
    apply Qle_shift_div_l; lra.
  - rewrite Qsum_transpose by (now apply chunks_widths).
    unfold pdf2. now rewrite concat_chunks.
Qed.

End WithUtilities.

Lemma unknown_kernel_is_refused_witness :
  exists self,
    @__init__ demo "tcrm.ini" "Gaussian" unit_square 0.5 (Some one_origin) = inr self
    /\ @generateKDE demo (Some 2) true self
       = (inl (AttributeError "MPDFGaussian"), override (Some 2) self).
Proof.
  eexists. split; [reflexivity|].
  apply (@unknown_kernel_is_refused demo (Some 2) true); reflexivity.
Defined.

Lemma failed_generateKDE_changes_only_bw_witness :
  exists self e self',
    @__init__ demo "tcrm.ini" "Gaussian" unit_square 0.5 (Some one_origin) = inr self
    /\ @generateKDE demo (Some 2) false self = (inl e, self')
    /\ self' = override (Some 2) self /\ pdf self' = pdf self /\ cz self' = cz self.
Proof.
  do 3 eexists. split; [reflexivity|]. split; [lazy; reflexivity|].
  eapply (@failed_generateKDE_changes_only_bw demo (Some 2)).
  lazy. reflexivity.
Defined.

Lemma generateCdf_after_generateKDE_witness :
  exists self p s1,
    new_model unit_square = inr self
    /\ @generateKDE demo None false self = (inr (Some (x self, y self, p)), s1)
    /\ @generateCdf demo false s1
       = (inr (Some (@cdf2d demo (x self) (y self) p)),
          set_cz (@cdf2d demo (x self) (y self) p) s1)
    /\ pdf s1 = Some p.
Proof.
  do 3 eexists. split; [reflexivity|]. split; [lazy; reflexivity|].
  eapply (@generateCdf_after_generateKDE demo None).
  lazy. reflexivity.
Defined.

Lemma generateKDE_can_be_repeated_witness :
  exists self out s1,
    new_model unit_square = inr self
    /\ @generateKDE demo (Some 2) false self = (inr out, s1)
    /\ @generateKDE demo (Some 2) false s1 = (inr out, s1)
    /\ @generateKDE demo None false s1 = (inr out, s1).
Proof.
  do 3 eexists. split; [reflexivity|].
  match goal with
  | |- ?H /\ _ => assert (E : H) by (lazy; reflexivity)
  end.
  split; [exact E|]. exact (generateKDE_can_be_repeated _ _ E).
Defined.

Lemma save_needs_the_configured_paths_witness :
  exists self out s1,
    new_model unit_square = inr self
    /\ processPath self = None
    /\ @generateKDE demo None false self = (inr out, s1)
    /\ @generateKDE demo None true self = (inl (AttributeError "processPath"), s1)
    /\ pdf s1 <> None.
Proof.
  do 3 eexists. split; [reflexivity|].
  match goal with
  | |- ?P /\ ?H /\ _ =>
      assert (N : P) by reflexivity;
      assert (E : H) by (lazy; reflexivity)
  end.
  split; [exact N|]. split; [exact E|]. split; [|discriminate].
  exact (proj2 (proj1 (proj2 (@save_needs_the_configured_paths demo)) None _ N)
           _ _ E).
Defined.

Lemma empty_x_sequence_divides_by_zero_witness :
  exists self,
    @__init__ demo "tcrm.ini" "InverseQuadratic" no_width 0.5 (Some one_origin)
    = inr self
    /\ x self = []
    /\ @generateKDE demo None false self = (inl ZeroDivisionError, self).
Proof.
  destruct (@empty_x_sequence_divides_by_zero demo "tcrm.ini" "InverseQuadratic"
              no_width 0.5 (Some one_origin)) as (self & I & X & G).
  - reflexivity.
  - discriminate.
  - exists self. split; [exact I|]. split; [exact X|].
    lazy in I. injection I as <-.
    apply (G None false MPDFInverseQuadratic []); reflexivity.
Defined.

Lemma main_stores_pdf_and_cdf_witness :
  exists kde,
    @__init__ demo_file "tcrm.ini" "InverseQuadratic" small_square 0.1 None = inr kde
    /\ exists p,
         @main demo_file "tcrm.ini" "InverseQuadratic" small_square
         = inr (set_cz (@cdf2d demo_file (x kde) (y kde) p) (set_pdf p kde))
         /\ Forall (Forall nonneg) p /\ Qsum (concat p) == 1.
Proof.
  eexists. split; [reflexivity|].
  eapply (@main_stores_pdf_and_cdf demo_file).
  - reflexivity.
  - reflexivity.
  - reflexivity.
  - lazy. reflexivity.
  - reflexivity.
  - repeat constructor; discriminate.
  - reflexivity.
Defined.

(** ** The layout of the grid *)

Lemma nth_map_in (A B : Type) (f : A -> B) (l : list A) n d d' :
  (n < length l)%nat -> nth n (map f l) d = f (nth n l d').
Proof.
  intros H. rewrite nth_indep with (d' := f d') by (now rewrite length_map).
  apply map_nth.
Qed.

Lemma nth_chunks rows cols : forall (l : list Q) j i,
  (j < rows)%nat -> (i < cols)%nat -> length l = (rows * cols)%nat ->
  nth i (nth j (chunks rows cols l) []) 0 = nth (j * cols + i) l 0.
Proof.
  induction rows as [|r IH]; intros l j i Hj Hi Hl; [lia|].
  cbn [chunks]. destruct j as [|j]; cbn [nth].
  - rewrite nth_firstn. apply Nat.ltb_lt in Hi. now rewrite Hi.
  - rewrite IH; [|lia|assumption|rewrite length_skipn; lia].
    rewrite nth_skipn. f_equal. lia.
Qed.

Lemma nth_transpose cols : forall (a : grid) i j,
  Forall (fun r => length r = cols) a ->
  (i < cols)%nat -> (j < length a)%nat ->
  nth j (nth i (transpose cols a) []) 0 = nth i (nth j a []) 0.
Proof.
  induction a as [|r a IH]; intros i j Ha Hi Hj; [simpl in Hj; lia|].
  apply Forall_cons_iff in Ha. destruct Ha as [Hr Ha'].
  pose proof (transpose_length Ha') as Ht.
  cbn [transpose].
  rewrite nth_map_in with (d' := (0, []))
    by (rewrite length_combine, Ht, Hr, Nat.min_id; assumption).
  rewrite combine_nth by (now rewrite Ht). cbn [fst snd].
  destruct j as [|j]; cbn [nth]; [reflexivity|].
  apply IH; [assumption|assumption|simpl in Hj; lia].
Qed.

Lemma transpose_heights cols (a : grid) :
  Forall (fun r => length r = cols) a ->
  Forall (fun c => length c = length a) (transpose cols a).
Proof.
  induction 1 as [|r a Hr Ha IH]; cbn [transpose].
  - apply Forall_forall. intros c Hc. apply repeat_spec in Hc. now subst.
  - apply Forall_forall. intros c Hc. apply in_map_iff in Hc.
    destruct Hc as [[v t] [<- Hp]]. apply in_combine_r in Hp.
    rewrite Forall_forall in IH. cbn [fst snd length]. f_equal. now apply IH.
Qed.

Lemma chunks_length rows cols : forall l : list Q, length (chunks rows cols l) = rows.
Proof. induction rows; intros; simpl; auto. Qed.

Lemma nth_grid_point xs : forall ys i j,
  (i < length xs)%nat -> (j < length ys)%nat ->
  nth (j * length xs + i) (MPDF2DGrid2Array xs ys) []
  = [nth i xs 0; nth j ys 0].
Proof.
  unfold MPDF2DGrid2Array.
  induction ys as [|y0 ys IH]; intros i j Hi Hj; [simpl in Hj; lia|].
  cbn [flat_map]. destruct j as [|j].
  - rewrite app_nth1 by (now rewrite length_map).
    now rewrite nth_map_in with (d' := 0).
  - rewrite app_nth2 by (rewrite length_map; lia).
    rewrite length_map.
    replace (S j * length xs + i - length xs)%nat with (j * length xs + i)%nat by lia.
    cbn [nth]. apply IH; [assumption|simpl in Hj; lia].
Qed.

Section Layout.

Context {U : Utilities}.

(** Property X10.  When the kernel routine returns one value for each
    grid point and the x-sequence is not empty, the grid [generateKDE]
    returns has one row for each x, each with one entry for each y; the
    entry at [(i, j)] is the value the routine returned at position
    [j * nx + i], divided by the total, and in the order of grid points
    taken for [MPDF2DGrid2Array] that position holds the point
    [(x_i, y_j)]. *)
Theorem pdf_is_indexed_by_x_then_y bw_arg self kdeMethod raw :
  0 < effective_bw bw_arg self ->
  KPDF_getattr ("MPDF" ++ kdeType self) = Some kdeMethod ->
  kdeMethod (lonLat self) (MPDF2DGrid2Array (x self) (y self))
            (effective_bw bw_arg self) = inr raw ->
  length raw = length (MPDF2DGrid2Array (x self) (y self)) ->
  x self <> [] ->
  exists p,
    generateKDE bw_arg false self
    = (inr (Some (x self, y self, p)), set_pdf p (override bw_arg self))
    /\ length p = length (x self)
    /\ forall i j,
         (i < length (x self))%nat -> (j < length (y self))%nat ->
         length (nth i p []) = length (y self)
         /\ nth j (nth i p []) 0
            = nth (j * length (x self) + i) raw 0 / Qsum raw
         /\ nth (j * length (x self) + i)
                (MPDF2DGrid2Array (x self) (y self)) []
            = [nth i (x self) 0; nth j (y self) 0].
Proof.
  intros Hb K R L Hx.
  destruct (override_frame bw_arg self) as (Ex & Ey & Ek & El).
  rewrite grid_points_length in L.
  set (nx := length (x self)) in *. set (ny := length (y self)) in *.
  assert (Hnx : (0 < nx)%nat).
  { unfold nx. destruct (x self); [congruence|simpl; lia]. }
  set (pdf1 := map (fun v => v / Qsum raw) raw).
  assert (L1 : length pdf1 = (ny * nx)%nat).
  { unfold pdf1. now rewrite length_map. }
  pose proof (chunks_widths ny nx pdf1 L1) as W.
  exists (transpose nx (chunks ny nx pdf1)).
  split; [|split].
  - rewrite generateKDE_override, generateKDE_steps. rewrite Ex, Ey.
    unfold effective_bw in *.
    rewrite _generatePDF_runs with (kdeMethod := kdeMethod);
      [|assumption|now rewrite Ek].
    cbn [fst]. rewrite El, R. fold pdf1. fold nx.
    rewrite reshape_exact with (rows := ny) by assumption. reflexivity.
  - now apply transpose_length.
  - intros i j Hi Hj. split; [|split].
    + pose proof (transpose_heights W) as H. rewrite Forall_forall in H.
      rewrite H; [apply chunks_length|].
      apply nth_In. now rewrite transpose_length.
    + rewrite nth_transpose by (rewrite ?chunks_length; assumption).
      rewrite nth_chunks by assumption. unfold pdf1.
      assert (Hk : (j * nx + i < length raw)%nat) by nia.
      now rewrite nth_map_in with (d' := 0).
    + now apply nth_grid_point.
Qed.

End Layout.

Lemma pdf_is_indexed_by_x_then_y_witness :
  exists self, new_model unit_square = inr self
    /\ exists raw p,
         @generateKDE demo None false self
         = (inr (Some (x self, y self, p)), set_pdf p (override None self))
         /\ length p = length (x self)
         /\ forall i j,
              (i < length (x self))%nat -> (j < length (y self))%nat ->
              length (nth i p []) = length (y self)
              /\ nth j (nth i p []) 0
                 = nth (j * length (x self) + i) raw 0 / Qsum raw
              /\ nth (j * length (x self) + i)
                     (MPDF2DGrid2Array (x self) (y self)) []
                 = [nth i (x self) 0; nth j (y self) 0].
Proof.
  eexists. split; [reflexivity|]. eexists.
  eapply (@pdf_is_indexed_by_x_then_y demo None).
  - reflexivity.
  - reflexivity.
  - lazy. reflexivity.
  - reflexivity.
  - discriminate.
Defined.

End KDEOriginExtras.
